(** * Soundscape prompt controller: intensity, drag and collection logic

    A shallow embedding of the TypeScript components
    [PromptController], [LevelSelector] and [PromptDjMidi].

    JavaScript numbers are IEEE-754 binary64 values.  They are modelled
    bit-exactly with the standard library's [spec_float] (precision 53,
    maximal exponent 1024), so that every conversion below rounds the way
    the JavaScript engine does. *)

From Stdlib Require Import ZArith List String Ascii Bool Lia.
From Stdlib Require Import Floats.SpecFloat HexadecimalString.
Import ListNotations.

Local Open Scope Z_scope.

(** ** JavaScript numbers *)

Module JS.

Definition number := spec_float.

Definition prec : Z := 53.
Definition emax : Z := 1024.

(** An integer literal, or an integer held in a number. *)
Definition ofZ (z : Z) : number := binary_normalize prec emax z 0 false.

Definition add : number -> number -> number := SFadd prec emax.
Definition sub : number -> number -> number := SFsub prec emax.
Definition mul : number -> number -> number := SFmul prec emax.
Definition div : number -> number -> number := SFdiv prec emax.

(** The decimal literal [n / d] for small integers [n] and [d]: both are
    exact and the division rounds to nearest-even, which is how the
    literal itself is read ([2.5] is [lit 25 10]). *)
Definition lit (n d : Z) : number := div (ofZ n) (ofZ d).

Definition NaN : number := S754_nan.

Definition isNaN (x : number) : bool :=
  match x with S754_nan => true | _ => false end.

(** [a < b], [a <= b], [a > b] and [a === b] on numbers. *)
Definition lt (a b : number) : bool := SFltb a b.
Definition le (a b : number) : bool := SFleb a b.
Definition gt (a b : number) : bool := SFltb b a.
Definition strictEq (a b : number) : bool := SFeqb a b.

(** The number [n * 2^e] for an integer [0 < n < 2^53], negated when [s]
    is set: the 53 digits and the exponent of its representation. *)
Definition dyadic (s : bool) (n e : Z) : number :=
  S754_finite s (Z.to_pos (n * 2 ^ (52 - Z.log2 n))) (e + Z.log2 n - 52).

(** [Object.is(a, b)]: the same value, [+0] and [-0] being different
    and [NaN] the same as itself. *)
Definition Object_is (a b : number) : bool :=
  match a, b with
  | S754_nan, S754_nan => true
  | S754_zero s, S754_zero s' => Bool.eqb s s'
  | S754_infinity s, S754_infinity s' => Bool.eqb s s'
  | S754_finite s m e, S754_finite s' m' e' =>
      Bool.eqb s s' && Pos.eqb m m' && Z.eqb e e'
  | _, _ => false
  end.

(** [x || 0]: a number is falsy when it is [NaN], [+0] or [-0]; an
    absent field ([undefined]) is falsy too. *)
Definition orZero (x : option number) : number :=
  match x with
  | Some (S754_finite s m e) => S754_finite s m e
  | Some (S754_infinity s) => S754_infinity s
  | _ => ofZ 0
  end.

(** [Math.max(a, b)]: [NaN] if either argument is, and [+0] is larger
    than [-0]. *)
Definition Math_max (a b : number) : number :=
  match a, b with
  | S754_nan, _ | _, S754_nan => S754_nan
  | S754_zero sa, S754_zero sb => S754_zero (sa && sb)
  | _, _ => if lt a b then b else a
  end.

(** [Math.min(a, b)]: [NaN] if either argument is, and [-0] is smaller
    than [+0]. *)
Definition Math_min (a b : number) : number :=
  match a, b with
  | S754_nan, _ | _, S754_nan => S754_nan
  | S754_zero sa, S754_zero sb => S754_zero (sa || sb)
  | _, _ => if lt b a then b else a
  end.

(** The results [Math.round] can have: it returns its argument when that
    is [NaN] or infinite, [-0] for an argument in [[-0.5, -0]], and an
    integer otherwise. *)
Inductive integral : Type :=
| IntNaN
| IntInfinity (negative : bool)
| IntNegZero
| IntZ (z : Z).

Definition number_of_integral (i : integral) : number :=
  match i with
  | IntNaN => S754_nan
  | IntInfinity s => S754_infinity s
  | IntNegZero => S754_zero true
  | IntZ z => ofZ z
  end.

(** [Math.round] picks the nearest integer, a tie going to the larger
    one.  The value of a finite number is [(+/-) m * 2^e]; the nearest
    integer is [floor (value + 1/2)], computed exactly on integers. *)
Definition Math_round_integral (x : number) : integral :=
  match x with
  | S754_nan => IntNaN
  | S754_infinity s => IntInfinity s
  | S754_zero s => if s then IntNegZero else IntZ 0
  | S754_finite s m e =>
      let v := cond_Zopp s (Zpos m) in
      if 0 <=? e then IntZ (v * 2 ^ e)
      else
        let n := (2 * v + 2 ^ (- e)) / 2 ^ (- e + 1) in
        if (n =? 0) && s then IntNegZero else IntZ n
  end.

Definition Math_round (x : number) : number :=
  number_of_integral (Math_round_integral x).

(** [n.toString(16)] for a result of [Math.round]: lower-case digits,
    a minus sign for negative integers, and [-0] prints as [0]. *)
Definition toString16 (i : integral) : string :=
  match i with
  | IntNaN => "NaN"
  | IntInfinity s => if s then "-Infinity" else "Infinity"
  | IntNegZero => "0"
  | IntZ z => NilZero.string_of_int (Z.to_hex_int z)
  end.

Fixpoint repeat_char (c : ascii) (n : nat) : string :=
  match n with
  | O => EmptyString
  | S n' => String c (repeat_char c n')
  end.

(** [s.padStart(targetLength, c)] for a one-character pad. *)
Definition padStart (targetLength : nat) (c : ascii) (s : string) : string :=
  (repeat_char c (targetLength - String.length s) ++ s)%string.

End JS.

(** ** [Map<string, V>]

    A JavaScript [Map] iterates in insertion order; [set] on a key already
    present keeps the key's place, [delete] forgets it. *)

Module JSMap.

Definition t (V : Type) : Type := list (string * V).

Section Ops.
Context {V : Type}.

Fixpoint get (m : t V) (k : string) : option V :=
  match m with
  | [] => None
  | (k', v) :: m' => if String.eqb k' k then Some v else get m' k
  end.

Definition has (m : t V) (k : string) : bool :=
  match get m k with Some _ => true | None => false end.

Fixpoint set (m : t V) (k : string) (v : V) : t V :=
  match m with
  | [] => [(k, v)]
  | (k', v') :: m' =>
      if String.eqb k' k then (k', v) :: m' else (k', v') :: set m' k v
  end.

Definition delete (m : t V) (k : string) : t V :=
  filter (fun kv => negb (String.eqb (fst kv) k)) m.

Definition values (m : t V) : list V := map snd m.

Definition size (m : t V) : nat := List.length m.
End Ops.

End JSMap.

(** ** Shared types *)

(** Modelled from the spec: the declarations of [Prompt] and
    [ControlChange] ([types.ts]) are not among the sources.  [Prompt] has
    the fields [handleAddPrompt] fills in; [x] and [y] may be absent, which
    is why the controller reads them as [x || 0].  [cc] holds a value of
    the counter [nextCC], which starts at 0 and grows by one with each
    prompt added; numbers hold such integers exactly up to 2^53 (see
    [Exact.increment_exact] and [Exact.strictEq_integers] below), and the
    counter and [cc] are integers here.  A [cc-message] carries two MIDI
    integers. *)
Record Prompt : Type := mkPrompt {
  promptId : string;
  text : string;
  weight : JS.number;
  cc : Z;
  color : string;
  x : option JS.number;
  y : option JS.number
}.

Record ControlChange : Type := mkControlChange {
  cc_number : Z;
  cc_value : Z
}.

(** [{ ...p, x: newX, y: newY }] *)
Definition with_position (p : Prompt) (newX newY : JS.number) : Prompt :=
  {| promptId := promptId p; text := text p; weight := weight p;
     cc := cc p; color := color p; x := Some newX; y := Some newY |}.

(** [p.weight = w] *)
Definition with_weight (p : Prompt) (w : JS.number) : Prompt :=
  {| promptId := promptId p; text := text p; weight := w;
     cc := cc p; color := color p; x := x p; y := y p |}.

(** ** [LevelSelector]: the five-dot selector and its halo *)

Module LevelSelector.

Record Props : Type := mkProps {
  level : JS.number;
  color : string;
  audioLevel : JS.number
}.

Inductive Event : Type :=
| LevelChanged (detail : JS.number).

Inductive Display : Type := Block | None_.

Record Halo : Type := mkHalo {
  display : Display;
  background : string;
  scale : JS.number
}.

(** One dot of the rendered template: its wrapper's rotation, whether it
    carries the class [active], and what a click on it dispatches. *)
Record Dot : Type := mkDot {
  angle : JS.number;
  active : bool;
  click : list Event
}.

Definition MIN_HALO_SCALE : JS.number := JS.ofZ 1.
Definition MAX_HALO_SCALE : JS.number := JS.lit 22 10.
Definition HALO_LEVEL_MODIFIER : JS.number := JS.ofZ 1.

Definition selectLevel (newLevel : JS.number) : list Event :=
  [LevelChanged newLevel].

(** The [scale] variable of [render]. *)
Definition haloScale (p : Props) : JS.number :=
  let scale := MIN_HALO_SCALE in
  if JS.gt (level p) (JS.ofZ 0) then
    let scale :=
      JS.add scale
        (JS.mul (JS.div (JS.sub (level p) (JS.ofZ 1)) (JS.ofZ 4))
                (JS.sub MAX_HALO_SCALE MIN_HALO_SCALE)) in
    JS.add scale (JS.mul (audioLevel p) HALO_LEVEL_MODIFIER)
  else scale.

Definition haloStyle (p : Props) : Halo :=
  {| display := if JS.gt (level p) (JS.ofZ 0) then Block else None_;
     background := color p;
     scale := haloScale p |}.

Definition dot (p : Props) (i : Z) : Dot :=
  {| angle := JS.add (JS.ofZ (-150)) (JS.mul (JS.sub (JS.ofZ i) (JS.ofZ 1)) (JS.ofZ 30));
     active := JS.le (JS.ofZ i) (level p);
     click := selectLevel (if JS.strictEq (level p) (JS.ofZ i)
                           then JS.ofZ 0 else JS.ofZ i) |}.

Definition render (p : Props) : Halo * list Dot :=
  (haloStyle p, map (dot p) [1; 2; 3; 4; 5]).

End LevelSelector.

(** ** [PromptController]: one draggable prompt *)

Module PromptController.

(** What a handler reads from the DOM: the element's own box and, when
    it has a parent, the parent's. *)
Record Layout : Type := mkLayout {
  offsetWidth : JS.number;
  offsetHeight : JS.number;
  parentElement : option (JS.number * JS.number)
}.

(** The layout of an element of [w] by [h] pixels in a parent of [pw] by
    [ph] pixels: the DOM gives these sizes as integers. *)
Definition pixelLayout (w h pw ph : Z) : Layout :=
  {| offsetWidth := JS.ofZ w;
     offsetHeight := JS.ofZ h;
     parentElement := Some (JS.ofZ pw, JS.ofZ ph) |}.

(** A pointer event; [onControl] says that its composed path holds an
    element matching [.remove-btn, .dot]. *)
Record PointerEvent : Type := mkPointerEvent {
  clientX : JS.number;
  clientY : JS.number;
  onControl : bool
}.

(** The component with the listeners it has registered: [pointerdown]
    on itself, [pointermove] and [pointerup] on [window] (registering
    the same bound method twice is registering it once), and the class
    it puts on [document.body]. *)
Record State : Type := mkState {
  prompt : Prompt;
  filtered : bool;
  audioLevel : JS.number;
  isDragging : bool;
  dragStartX : JS.number;
  dragStartY : JS.number;
  promptStartX : JS.number;
  promptStartY : JS.number;
  hostPointerDown : bool;
  windowPointerMove : bool;
  windowPointerUp : bool;
  bodyDraggingDisc : bool
}.

Inductive Event : Type :=
| PromptChanged (detail : Prompt)
| PromptRemoved (detail : string).

Definition set_prompt (st : State) (p : Prompt) : State :=
  {| prompt := p; filtered := filtered st; audioLevel := audioLevel st;
     isDragging := isDragging st;
     dragStartX := dragStartX st; dragStartY := dragStartY st;
     promptStartX := promptStartX st; promptStartY := promptStartY st;
     hostPointerDown := hostPointerDown st;
     windowPointerMove := windowPointerMove st;
     windowPointerUp := windowPointerUp st;
     bodyDraggingDisc := bodyDraggingDisc st |}.

(** [get level()] *)
Definition level (st : State) : JS.number :=
  JS.Math_round (JS.mul (weight (prompt st)) (JS.lit 25 10)).

Definition dispatchPromptChange (st : State) : list Event :=
  [PromptChanged (prompt st)].

Definition dispatchPromptRemoved (st : State) : list Event :=
  [PromptRemoved (promptId (prompt st))].

Definition updateLevel (st : State) (newLevel : JS.number) : State * list Event :=
  let st' := set_prompt st (with_weight (prompt st) (JS.div newLevel (JS.lit 25 10))) in
  (st', dispatchPromptChange st').

(** [newLevel] in the [cc-message] listener: MIDI CC 0-127 to level
    0-5. *)
Definition ccToLevel (value : Z) : JS.number :=
  JS.Math_round (JS.mul (JS.div (JS.ofZ value) (JS.ofZ 127)) (JS.ofZ 5)).

(** Which of the levels 0 to 5 a number is, if it is one of them. *)
Definition levelIndex (l : JS.number) : option Z :=
  find (fun k => JS.Object_is l (JS.ofZ k)) [0; 1; 2; 3; 4; 5].

(** The listener [connectedCallback] puts on the dispatcher's
    [cc-message] events. *)
Definition onCCMessage (st : State) (detail : ControlChange) : State * list Event :=
  if cc_number detail =? cc (prompt st) then
    let newLevel := ccToLevel (cc_value detail) in
    updateLevel st newLevel
  else (st, []).

(** [connectedCallback], as far as the pointer listeners go.  It also puts
    a new [onCCMessage] listener on the dispatcher at every call, which
    [disconnectedCallback] does not take off again; the dispatcher
    ([utils/MidiDispatcher]) is not among the sources and the set of its
    listeners is not part of the state here. *)
Definition connectedCallback (st : State) : State :=
  {| prompt := prompt st; filtered := filtered st; audioLevel := audioLevel st;
     isDragging := isDragging st;
     dragStartX := dragStartX st; dragStartY := dragStartY st;
     promptStartX := promptStartX st; promptStartY := promptStartY st;
     hostPointerDown := true;
     windowPointerMove := windowPointerMove st;
     windowPointerUp := windowPointerUp st;
     bodyDraggingDisc := bodyDraggingDisc st |}.

Definition disconnectedCallback (st : State) : State * list Event :=
  ({| prompt := prompt st; filtered := filtered st; audioLevel := audioLevel st;
      isDragging := isDragging st;
      dragStartX := dragStartX st; dragStartY := dragStartY st;
      promptStartX := promptStartX st; promptStartY := promptStartY st;
      hostPointerDown := false;
      windowPointerMove := false;
      windowPointerUp := false;
      bodyDraggingDisc := bodyDraggingDisc st |}, []).

Definition handlePointerDown (st : State) (e : PointerEvent) : State * list Event :=
  if onControl e then (st, [])
  else
    ({| prompt := prompt st; filtered := filtered st; audioLevel := audioLevel st;
        isDragging := true;
        dragStartX := clientX e; dragStartY := clientY e;
        promptStartX := JS.orZero (x (prompt st));
        promptStartY := JS.orZero (y (prompt st));
        hostPointerDown := hostPointerDown st;
        windowPointerMove := true;
        windowPointerUp := true;
        bodyDraggingDisc := true |}, []).

(** [Math.max(half, Math.min(v, extent - half))] *)
Definition constrain (v half extent : JS.number) : JS.number :=
  JS.Math_max half (JS.Math_min v (JS.sub extent half)).

Definition handlePointerMove (st : State) (lay : Layout) (e : PointerEvent)
  : State * list Event :=
  if negb (isDragging st) then (st, [])
  else
    let deltaX := JS.sub (clientX e) (dragStartX st) in
    let deltaY := JS.sub (clientY e) (dragStartY st) in
    let newX := JS.add (promptStartX st) deltaX in
    let newY := JS.add (promptStartY st) deltaY in
    let '(newX, newY) :=
      match parentElement lay with
      | Some (parentWidth, parentHeight) =>
          let halfWidth := JS.div (offsetWidth lay) (JS.ofZ 2) in
          let halfHeight := JS.div (offsetHeight lay) (JS.ofZ 2) in
          (constrain newX halfWidth parentWidth,
           constrain newY halfHeight parentHeight)
      | None => (newX, newY)
      end in
    (set_prompt st (with_position (prompt st) newX newY), []).

Definition handlePointerUp (st : State) : State * list Event :=
  if negb (isDragging st) then (st, [])
  else
    let st' :=
      {| prompt := prompt st; filtered := filtered st; audioLevel := audioLevel st;
         isDragging := false;
         dragStartX := dragStartX st; dragStartY := dragStartY st;
         promptStartX := promptStartX st; promptStartY := promptStartY st;
         hostPointerDown := hostPointerDown st;
         windowPointerMove := false;
         windowPointerUp := false;
         bodyDraggingDisc := false |} in
    (st', dispatchPromptChange st').

(** The properties [render] binds on its [level-selector] child. *)
Definition render (st : State) : LevelSelector.Props :=
  {| LevelSelector.level := level st;
     LevelSelector.color := if filtered st then "#888"%string else color (prompt st);
     LevelSelector.audioLevel := if filtered st then JS.ofZ 0 else audioLevel st |}.

(** [@level-changed] on the child. *)
Definition onLevelChanged (st : State) (e : LevelSelector.Event) : State * list Event :=
  match e with
  | LevelSelector.LevelChanged detail => updateLevel st detail
  end.

(** *** What the browser delivers to the pointer handlers

    A pointer input reaches a handler only through a listener that is
    registered at that moment. *)
Inductive Input : Type :=
| PointerDown (e : PointerEvent)
| PointerMove (lay : Layout) (e : PointerEvent)
| PointerUp
| Disconnected.

Definition deliver (st : State) (i : Input) : State * list Event :=
  match i with
  | PointerDown e => if hostPointerDown st then handlePointerDown st e else (st, [])
  | PointerMove lay e => if windowPointerMove st then handlePointerMove st lay e else (st, [])
  | PointerUp => if windowPointerUp st then handlePointerUp st else (st, [])
  | Disconnected => disconnectedCallback st
  end.

(** A drag of [p0] is under way since the pointer went down at [down]. *)
Record dragging (p0 : Prompt) (down : PointerEvent) (st : State) : Prop := {
  drag_active : isDragging st = true;
  drag_move : windowPointerMove st = true;
  drag_up : windowPointerUp st = true;
  drag_x0 : dragStartX st = clientX down;
  drag_y0 : dragStartY st = clientY down;
  drag_px0 : promptStartX st = JS.orZero (x p0);
  drag_py0 : promptStartY st = JS.orZero (y p0)
}.

(** The prompt [p] lies inside a parent of the given extents, as far as
    an element of the given half-extents can: on each axis its coordinate
    is at least the half-extent and at most the parent's extent less the
    half-extent. *)
Definition positionWithin (p : Prompt)
    (halfWidth halfHeight parentWidth parentHeight : JS.number) : Prop :=
  exists newX newY,
    x p = Some newX /\ y p = Some newY
    /\ JS.le halfWidth newX = true
    /\ JS.le newX (JS.sub parentWidth halfWidth) = true
    /\ JS.le halfHeight newY = true
    /\ JS.le newY (JS.sub parentHeight halfHeight) = true.

Definition pointerMoves (samples : list (Layout * PointerEvent)) : list Input :=
  map (fun s => PointerMove (fst s) (snd s)) samples.

(** Where a drag of [p] that began with the pointer at [down] is to put
    the prompt when the pointer is at [e]: the position asked for is the
    prompt's own, moved as far as the pointer has moved, and inside a
    parent it is constrained on each axis. *)
Definition expectedDragPosition (p : Prompt) (down : PointerEvent)
    (lay : Layout) (e : PointerEvent) : JS.number * JS.number :=
  let requestedX := JS.add (JS.orZero (x p)) (JS.sub (clientX e) (clientX down)) in
  let requestedY := JS.add (JS.orZero (y p)) (JS.sub (clientY e) (clientY down)) in
  match parentElement lay with
  | Some (parentWidth, parentHeight) =>
      (constrain requestedX (JS.div (offsetWidth lay) (JS.ofZ 2)) parentWidth,
       constrain requestedY (JS.div (offsetHeight lay) (JS.ofZ 2)) parentHeight)
  | None => (requestedX, requestedY)
  end.

(** Delivers the inputs in order and collects what was dispatched. *)
Fixpoint run (st : State) (inputs : list Input) : State * list Event :=
  match inputs with
  | [] => (st, [])
  | i :: rest =>
      let '(st1, out1) := deliver st i in
      let '(st2, out2) := run st1 rest in
      (st2, out1 ++ out2)
  end.

End PromptController.

(** ** [PromptDjMidi]: the collection of prompts *)

Module PromptDjMidi.

Record DefaultPrompt : Type := mkDefaultPrompt {
  default_color : string;
  default_text : string
}.

(** The component's fields, together with the class-wide counter
    [nextCC] that its instances share. *)
Record State : Type := mkState {
  prompts : JSMap.t Prompt;
  allPrompts : list DefaultPrompt;
  availablePrompts : list DefaultPrompt;
  nextCC : Z
}.

(** What [handleAddPrompt] reads from the DOM: the selected option of
    [#prompt-select] and the box of [#soundscape]. *)
Record Dom : Type := mkDom {
  promptSelect_value : string;
  soundscape_offsetWidth : JS.number;
  soundscape_offsetHeight : JS.number
}.

Inductive Event : Type :=
| PromptsChanged (detail : JSMap.t Prompt).

Definition getAvailablePrompts (st : State) : list DefaultPrompt :=
  filter (fun p => negb (JSMap.has (prompts st) (default_text p))) (allPrompts st).

(** [new Map(this.prompts)] is a copy: a list is a value. *)
Definition dispatchPromptsChanged (st : State) : list Event :=
  [PromptsChanged (prompts st)].

Definition set_prompts (st : State) (m : JSMap.t Prompt) : State :=
  {| prompts := m; allPrompts := allPrompts st;
     availablePrompts := availablePrompts st; nextCC := nextCC st |}.

Definition refresh_available (st : State) : State :=
  {| prompts := prompts st; allPrompts := allPrompts st;
     availablePrompts := getAvailablePrompts st; nextCC := nextCC st |}.

(** The constructor; the counter is whatever the class holds by then
    ([0] for the first instance). *)
Definition constructor (initialPrompts : JSMap.t Prompt)
    (all : list DefaultPrompt) (counter : Z) : State :=
  refresh_available
    {| prompts := initialPrompts; allPrompts := all;
       availablePrompts := []; nextCC := counter |}.

Definition handlePromptChanged (st : State) (updatedPrompt : Prompt)
  : State * list Event :=
  let st' := set_prompts st (JSMap.set (prompts st) (promptId updatedPrompt) updatedPrompt) in
  (st', dispatchPromptsChanged st').

Definition handlePromptRemoved (st : State) (promptIdToRemove : string)
  : State * list Event :=
  let st' := refresh_available (set_prompts st (JSMap.delete (prompts st) promptIdToRemove)) in
  (st', dispatchPromptsChanged st').

Definition handleAddPrompt (st : State) (dom : Dom) : State * list Event :=
  let text := promptSelect_value dom in
  if String.eqb text EmptyString || JSMap.has (prompts st) text then (st, [])
  else
    match find (fun p => String.eqb (default_text p) text) (allPrompts st) with
    | None => (st, [])
    | Some defaultPrompt =>
        let newPrompt :=
          {| promptId := text;
             text := text;
             weight := JS.ofZ 0;
             cc := nextCC st;
             color := default_color defaultPrompt;
             x := Some (JS.div (soundscape_offsetWidth dom) (JS.ofZ 2));
             y := Some (JS.div (soundscape_offsetHeight dom) (JS.ofZ 2)) |} in
        let st' :=
          refresh_available
            {| prompts := JSMap.set (prompts st) (promptId newPrompt) newPrompt;
               allPrompts := allPrompts st;
               availablePrompts := availablePrompts st;
               nextCC := nextCC st + 1 |} in
        (st', dispatchPromptsChanged st')
    end.

(** Every prompt of the collection has a [cc] that the counter has
    already passed. *)
Definition issued (st : State) : Prop :=
  forall k p, JSMap.get (prompts st) k = Some p -> cc p < nextCC st.

(** The collection without its prompts of weight zero. *)
Definition withoutSilent (m : JSMap.t Prompt) : JSMap.t Prompt :=
  filter (fun kv => negb (JS.strictEq (weight (snd kv)) (JS.ofZ 0))) m.

(** *** The background *)

(** One [radial-gradient(circle at x% y%, color alpha 0px, color 00
    stop vmax)] of the background image, by the values the template
    interpolates; [gradient_stop] is [stop * 40]. *)
Record Gradient : Type := mkGradient {
  gradient_x : JS.number;
  gradient_y : JS.number;
  gradient_color : string;
  gradient_alpha : string;
  gradient_stop : JS.number
}.

(** The two hexadecimal digits appended to the colour. *)
Definition alpha (p : Prompt) : string :=
  let alphaPct := JS.mul (JS.Math_min (weight p) (JS.ofZ 1)) (JS.lit 4 10) in
  JS.padStart 2 "0"%char
    (JS.toString16 (JS.Math_round_integral (JS.mul alphaPct (JS.ofZ 255)))).

(** The body of [forEach]; [random] is the sequence of values
    [Math.random()] returns and [n] how many were drawn so far. *)
Fixpoint gradients (random : nat -> JS.number) (n : nat) (active : list Prompt)
  : list Gradient :=
  match active with
  | [] => []
  | p :: rest =>
      let stop := JS.div (weight p) (JS.ofZ 2) in
      let gx := JS.add (JS.ofZ 20) (JS.mul (random n) (JS.ofZ 60)) in
      let gy := JS.add (JS.ofZ 20) (JS.mul (random (S n)) (JS.ofZ 60)) in
      {| gradient_x := gx; gradient_y := gy;
         gradient_color := color p;
         gradient_alpha := alpha p;
         gradient_stop := JS.mul stop (JS.ofZ 40) |}
      :: gradients random (S (S n)) rest
  end.

Definition activePrompts (m : JSMap.t Prompt) : list Prompt :=
  filter (fun p => JS.gt (weight p) (JS.ofZ 0)) (JSMap.values m).

(** The function [makeBackground] throttles; the list stands for the
    strings joined with a comma. *)
Definition makeBackground (random : nat -> JS.number) (m : JSMap.t Prompt)
  : list Gradient :=
  gradients random 0 (activePrompts m).

End PromptDjMidi.

(** ** Concrete situations used below *)

Module Scenario.

Definition bass : Prompt :=
  {| promptId := "Bass"; text := "Bass"; weight := JS.ofZ 0; cc := 0;
     color := "#9900ff"; x := Some (JS.ofZ 500); y := Some (JS.ofZ 500) |}.

(** A connected controller at rest showing [p]. *)
Definition idle (p : Prompt) : PromptController.State :=
  {| PromptController.prompt := p;
     PromptController.filtered := false;
     PromptController.audioLevel := JS.ofZ 0;
     PromptController.isDragging := false;
     PromptController.dragStartX := JS.ofZ 0;
     PromptController.dragStartY := JS.ofZ 0;
     PromptController.promptStartX := JS.ofZ 0;
     PromptController.promptStartY := JS.ofZ 0;
     PromptController.hostPointerDown := true;
     PromptController.windowPointerMove := false;
     PromptController.windowPointerUp := false;
     PromptController.bodyDraggingDisc := false |}.

Definition pointer (px py : Z) : PromptController.PointerEvent :=
  {| PromptController.clientX := JS.ofZ px;
     PromptController.clientY := JS.ofZ py;
     PromptController.onControl := false |}.

(** The controller after the pointer went down on it at (500, 500). *)
Definition grabbed : PromptController.State :=
  fst (PromptController.handlePointerDown (idle bass) (pointer 500 500)).

(** A filtered controller whose prompt has weight 1.2 (level 3) while the
    audio level is 0.9. *)
Definition filtered_loud : PromptController.State :=
  {| PromptController.prompt := with_weight bass (JS.lit 12 10);
     PromptController.filtered := true;
     PromptController.audioLevel := JS.lit 9 10;
     PromptController.isDragging := false;
     PromptController.dragStartX := JS.ofZ 0;
     PromptController.dragStartY := JS.ofZ 0;
     PromptController.promptStartX := JS.ofZ 0;
     PromptController.promptStartY := JS.ofZ 0;
     PromptController.hostPointerDown := true;
     PromptController.windowPointerMove := false;
     PromptController.windowPointerUp := false;
     PromptController.bodyDraggingDisc := false |}.

Definition palette : list PromptDjMidi.DefaultPrompt :=
  [ {| PromptDjMidi.default_color := "#9900ff"; PromptDjMidi.default_text := "Bass" |};
    {| PromptDjMidi.default_color := "#5200ff"; PromptDjMidi.default_text := "Drums" |} ].

Definition dom (selected : string) : PromptDjMidi.Dom :=
  {| PromptDjMidi.promptSelect_value := selected;
     PromptDjMidi.soundscape_offsetWidth := JS.ofZ 1000;
     PromptDjMidi.soundscape_offsetHeight := JS.ofZ 1000 |}.

(** A first instance, constructed with no prompts. *)
Definition empty : PromptDjMidi.State := PromptDjMidi.constructor [] palette 0.

(** The collection after "Bass" was added to [empty]. *)
Definition with_bass : PromptDjMidi.State :=
  fst (PromptDjMidi.handleAddPrompt empty (dom "Bass")).

(** A first instance constructed with a prompt of the caller's making,
    whose [cc] is 7. *)
Definition seeded : PromptDjMidi.State :=
  PromptDjMidi.constructor
    [("Bass"%string,
      {| promptId := "Bass"; text := "Bass"; weight := JS.ofZ 0; cc := 7;
         color := "#9900ff"; x := Some (JS.ofZ 500); y := Some (JS.ofZ 500) |})]
    palette 0.

End Scenario.

(** ** Notions used by the further properties *)

Module Order.

(** The order of [Math.max] and [Math.min] on numbers other than [NaN]:
    the order of [<], with [-0] before [+0]. *)
Definition before (a b : JS.number) : bool :=
  match a, b with
  | S754_zero sa, S754_zero sb => sa && negb sb
  | _, _ => JS.lt a b
  end.


End Order.

Module Session.

(** [q] is [p] but for its position. *)
Definition sameButPosition (p q : Prompt) : Prop :=
  promptId q = promptId p /\ text q = text p /\ weight q = weight p
  /\ cc q = cc p /\ color q = color p.

(** [q] is [p] but for its weight. *)
Definition sameButWeight (p q : Prompt) : Prop :=
  promptId q = promptId p /\ text q = text p /\ cc q = cc p
  /\ color q = color p /\ x q = x p /\ y q = y p.

(** The pointer inputs that start no drag: moves, ups, and downs on the
    remove button or on a dot. *)
Definition stray (i : PromptController.Input) : bool :=
  match i with
  | PromptController.PointerMove _ _ | PromptController.PointerUp => true
  | PromptController.PointerDown e => PromptController.onControl e
  | PromptController.Disconnected => false
  end.

End Session.

Module Built.

(** Each prompt of the collection is filed under its own [promptId]. *)
Definition keyed (m : JSMap.t Prompt) : Prop :=
  forall k p, In (k, p) m -> promptId p = k.

(** No key occurs twice. *)
Definition uniqueKeys (m : JSMap.t Prompt) : Prop := NoDup (map fst m).

(** No two prompts have the same controller number. *)
Definition distinctCC (m : JSMap.t Prompt) : Prop :=
  forall k1 k2 p1 p2,
    JSMap.get m k1 = Some p1 -> JSMap.get m k2 = Some p2 -> cc p1 = cc p2 -> k1 = k2.

(** The options offered are the prompts of the palette that are not in the
    collection. *)
Definition offersRest (st : PromptDjMidi.State) : Prop :=
  PromptDjMidi.availablePrompts st = PromptDjMidi.getAvailablePrompts st.

(** What [renderPrompts] binds on each controller: its [prompt-changed]
    goes to [handlePromptChanged], its [prompt-removed] to
    [handlePromptRemoved]. *)
Definition onControllerEvent (st : PromptDjMidi.State) (e : PromptController.Event)
  : PromptDjMidi.State * list PromptDjMidi.Event :=
  match e with
  | PromptController.PromptChanged detail => PromptDjMidi.handlePromptChanged st detail
  | PromptController.PromptRemoved detail => PromptDjMidi.handlePromptRemoved st detail
  end.

(** The collections that come from one constructed with no prompts by
    adding prompts, removing prompts, and taking in the changes of
    controllers, which carry a prompt of the collection with its [cc]. *)
Inductive built : PromptDjMidi.State -> Prop :=
| built_empty (all : list PromptDjMidi.DefaultPrompt) (counter : Z) :
    built (PromptDjMidi.constructor [] all counter)
| built_add (st : PromptDjMidi.State) (dom : PromptDjMidi.Dom) :
    built st -> built (fst (PromptDjMidi.handleAddPrompt st dom))
| built_remove (st : PromptDjMidi.State) (id : string) :
    built st -> built (fst (PromptDjMidi.handlePromptRemoved st id))
| built_change (st : PromptDjMidi.State) (updated old : Prompt) :
    built st ->
    JSMap.get (PromptDjMidi.prompts st) (promptId updated) = Some old ->
    cc updated = cc old ->
    built (fst (PromptDjMidi.handlePromptChanged st updated)).

End Built.

(** ** The rest of [PromptDjMidi]: what it hands to its controllers *)

Module View.

(** The collection together with the component's other fields that
    [renderPrompts] reads; [filteredPrompts] is a [Set], listed in
    insertion order. *)
Record State : Type := mkState {
  collection : PromptDjMidi.State;
  filteredPrompts : list string;
  showMidi : bool;
  audioLevel : JS.number
}.

Definition Set_has (s : list string) (v : string) : bool :=
  existsb (String.eqb v) s.

(** [new Set([...this.filteredPrompts, prompt])] *)
Definition addFilteredPrompt (v : State) (prompt : string) : State :=
  {| collection := collection v;
     filteredPrompts :=
       if Set_has (filteredPrompts v) prompt then filteredPrompts v
       else filteredPrompts v ++ [prompt];
     showMidi := showMidi v;
     audioLevel := audioLevel v |}.

(** The properties bound on one [prompt-controller]. *)
Record ControllerProps : Type := mkControllerProps {
  props_prompt : Prompt;
  props_filtered : bool;
  props_showCC : bool;
  props_audioLevel : JS.number
}.

Definition renderPrompts (v : State) : list ControllerProps :=
  map (fun p =>
         {| props_prompt := p;
            props_filtered := Set_has (filteredPrompts v) (text p);
            props_showCC := showMidi v;
            props_audioLevel := audioLevel v |})
      (JSMap.values (PromptDjMidi.prompts (collection v))).

(** A controller element once these properties are set on it. *)
Definition bind (c : PromptController.State) (props : ControllerProps)
  : PromptController.State :=
  {| PromptController.prompt := props_prompt props;
     PromptController.filtered := props_filtered props;
     PromptController.audioLevel := props_audioLevel props;
     PromptController.isDragging := PromptController.isDragging c;
     PromptController.dragStartX := PromptController.dragStartX c;
     PromptController.dragStartY := PromptController.dragStartY c;
     PromptController.promptStartX := PromptController.promptStartX c;
     PromptController.promptStartY := PromptController.promptStartY c;
     PromptController.hostPointerDown := PromptController.hostPointerDown c;
     PromptController.windowPointerMove := PromptController.windowPointerMove c;
     PromptController.windowPointerUp := PromptController.windowPointerUp c;
     PromptController.bodyDraggingDisc := PromptController.bodyDraggingDisc c |}.

End View.


(** * Properties *)

(** ** The order on numbers *)

Module NumberOrder.

Import JS.

(** Splits every comparison of exponents and of mantissas that occurs in
    the goal or in a hypothesis. *)
Ltac split_compare :=
  change Pos.compare_cont with (fun c => Pos.compare_cont c) in *;
  cbv beta in *;
  repeat match goal with
  | H : context [Pos.compare_cont Eq ?a ?b] |- _ =>
      change (Pos.compare_cont Eq a b) with (Pos.compare a b) in *
  | |- context [Pos.compare_cont Eq ?a ?b] =>
      change (Pos.compare_cont Eq a b) with (Pos.compare a b) in *
  end;
  repeat match goal with
  | H : context [Z.compare ?a ?b] |- _ => destruct (Z.compare_spec a b)
  | |- context [Z.compare ?a ?b] => destruct (Z.compare_spec a b)
  | H : context [Pos.compare ?a ?b] |- _ => destruct (Pos.compare_spec a b)
  | |- context [Pos.compare ?a ?b] => destruct (Pos.compare_spec a b)
  end;
  simpl in *; try discriminate; try reflexivity; try lia.

Ltac by_cases_on x :=
  destruct x as [[|]|[|]| |[|] ? ?]; simpl in *;
  try discriminate; try reflexivity.

Lemma compare_refl (a : number) :
  isNaN a = false -> SFcompare a a = Some Eq.
Proof.
  unfold isNaN. by_cases_on a; intros _; f_equal; split_compare.
Qed.

Lemma compare_antisym (a b : number) :
  SFcompare b a = option_map CompOpp (SFcompare a b).
Proof.
  by_cases_on a; by_cases_on b; f_equal; split_compare.
Qed.

Lemma le_refl (a : number) : isNaN a = false -> le a a = true.
Proof.
  intros Ha. unfold le, SFleb. now rewrite compare_refl.
Qed.

Lemma lt_le (a b : number) : lt a b = true -> le a b = true.
Proof.
  unfold lt, le, SFltb, SFleb. destruct (SFcompare a b) as [[| |]|]; easy.
Qed.

Lemma le_not_nan (a b : number) :
  le a b = true -> isNaN a = false /\ isNaN b = false.
Proof.
  unfold le, SFleb. destruct a, b; simpl; intros H; try discriminate; auto.
Qed.

Lemma lt_not_nan (a b : number) :
  lt a b = true -> isNaN a = false /\ isNaN b = false.
Proof.
  intros H. now apply le_not_nan, lt_le.
Qed.

(** Two numbers that are not [NaN] are comparable. *)
Lemma not_lt_le (a b : number) :
  isNaN a = false -> isNaN b = false -> lt b a = false -> le a b = true.
Proof.
  intros Ha Hb. unfold lt, le, SFltb, SFleb. rewrite (compare_antisym a b).
  destruct a, b; try discriminate;
    destruct (SFcompare _ _) as [[| |]|] eqn:E; simpl; try easy;
    simpl in E; discriminate.
Qed.

Lemma lt_not_le (a b : number) : lt a b = true -> le b a = false.
Proof.
  unfold lt, le, SFltb, SFleb. rewrite (compare_antisym a b).
  destruct (SFcompare a b) as [[| |]|]; easy.
Qed.

Lemma le_trans (a b c : number) :
  le a b = true -> le b c = true -> le a c = true.
Proof.
  unfold le, SFleb.
  by_cases_on a; by_cases_on b; by_cases_on c; intros; split_compare.
Qed.

(** [Math.max] returns one of its arguments, the larger one. *)
Lemma Math_max_cases (a b : number) :
  isNaN a = false -> isNaN b = false ->
  (Math_max a b = a /\ lt a b = false) \/ (Math_max a b = b /\ le a b = true).
Proof.
  intros Ha Hb.
  assert (D : (if lt a b then b else a) = a /\ lt a b = false
              \/ (if lt a b then b else a) = b /\ le a b = true).
  { destruct (lt a b) eqn:E; [right|left]; auto using lt_le. }
  destruct a as [[|]|?| |? ? ?], b as [[|]|?| |? ? ?];
    try discriminate; try exact D; simpl; auto.
Qed.

(** [Math.min] returns one of its arguments, the smaller one. *)
Lemma Math_min_cases (a b : number) :
  isNaN a = false -> isNaN b = false ->
  (Math_min a b = a /\ lt b a = false) \/ (Math_min a b = b /\ le b a = true).
Proof.
  intros Ha Hb.
  assert (D : (if lt b a then b else a) = a /\ lt b a = false
              \/ (if lt b a then b else a) = b /\ le b a = true).
  { destruct (lt b a) eqn:E; [right|left]; auto using lt_le. }
  destruct a as [[|]|?| |? ? ?], b as [[|]|?| |? ? ?];
    try discriminate; try exact D; simpl; auto.
Qed.

End NumberOrder.

(** ** Exact arithmetic on whole and half pixels

    Sizes on screen are whole numbers of pixels.  On integers below 2^53
    and their halves the operations the drag constraint uses do not
    round. *)

Module Exact.

Import JS.

Lemma digits2_size (p : positive) : digits2_pos p = Pos.size p.
Proof. induction p; simpl; congruence. Qed.

Lemma digits_log2 (p : positive) : Zpos (digits2_pos p) = Z.log2 (Zpos p) + 1.
Proof.
  rewrite digits2_size. destruct p; simpl; lia.
Qed.

Lemma Zpos_iter_xO (p q : positive) : Zpos (Pos.iter xO p q) = Zpos p * 2 ^ Zpos q.
Proof.
  rewrite <- Z.shiftl_mul_pow2 by lia. unfold Z.shiftl.
  induction q using Pos.peano_ind.
  - reflexivity.
  - rewrite !Pos.iter_succ, <- IHq. reflexivity.
Qed.

Lemma iter_pos_iter {A : Type} (f : A -> A) (n : positive) (a : A) :
  iter_pos f n a = Pos.iter f a n.
Proof.
  revert a. induction n; intros a; simpl.
  - rewrite !IHn. now rewrite <- !Pos.iter_swap.
  - now rewrite !IHn.
  - reflexivity.
Qed.

(** Shifting out [k] zero bits is exact. *)
Lemma shr_zeros (q k : positive) :
  iter_pos shr_1 k (Build_shr_record (Zpos (Pos.iter xO q k)) false false)
  = Build_shr_record (Zpos q) false false.
Proof.
  rewrite iter_pos_iter. induction k using Pos.peano_ind.
  - reflexivity.
  - rewrite Pos.iter_succ_r, Pos.iter_succ. exact IHk.
Qed.

Lemma fexp_normal (e : Z) : -1021 <= e -> fexp prec emax e = e - 53.
Proof. unfold fexp, emin, prec, emax. lia. Qed.

(** A mantissa of 53 digits is kept as it is. *)
Lemma binary_round_aux_canonical (s : bool) (m : positive) (t : Z) :
  Zpos (digits2_pos m) = 53 -> -1074 <= t <= 971 ->
  binary_round_aux prec emax s (Zpos m) t loc_Exact = S754_finite s m t.
Proof.
  intros Hd Ht. unfold binary_round_aux, shr_fexp.
  cbn [Zdigits2 shr_record_of_loc]. rewrite Hd.
  rewrite fexp_normal by lia.
  replace (53 + t - 53 - t) with 0 by lia. cbn [shr shr_m loc_of_shr_record round_nearest_even Zdigits2 shr_record_of_loc].
  rewrite Hd, fexp_normal by lia.
  replace (53 + t - 53 - t) with 0 by lia. cbn [shr shr_m].
  unfold prec, emax. destruct (Z.leb_spec t (1024 - 53)); [reflexivity|lia].
Qed.

Lemma dyadic_digits (n : Z) :
  0 < n < 2 ^ 53 ->
  Zpos (digits2_pos (Z.to_pos (n * 2 ^ (52 - Z.log2 n)))) = 53.
Proof.
  intros Hn.
  assert (Hl : 0 <= Z.log2 n < 53).
  { split; [apply Z.log2_nonneg | apply Z.log2_lt_pow2; lia]. }
  assert (Hpos : 0 < n * 2 ^ (52 - Z.log2 n)).
  { apply Z.mul_pos_pos; [lia | apply Z.pow_pos_nonneg; lia]. }
  rewrite digits_log2, Z2Pos.id by assumption.
  rewrite Z.log2_mul_pow2 by lia. lia.
Qed.

Lemma binary_round_dyadic (s : bool) (p : positive) (e n j : Z) :
  0 < n < 2 ^ 53 -> 0 <= j -> Zpos p = n * 2 ^ j ->
  -1000 <= e + j <= 900 ->
  binary_round prec emax s p e = dyadic s n (e + j).
Proof.
  intros Hn Hj Hp He.
  assert (Hl : 0 <= Z.log2 n < 53).
  { split; [apply Z.log2_nonneg | apply Z.log2_lt_pow2; lia]. }
  assert (Hdp : Zpos (digits2_pos p) = Z.log2 n + 1 + j).
  { rewrite digits_log2, Hp, Z.log2_mul_pow2 by lia. lia. }
  assert (Hpos : 0 < n * 2 ^ (52 - Z.log2 n)).
  { apply Z.mul_pos_pos; [lia | apply Z.pow_pos_nonneg; lia]. }
  pose proof (dyadic_digits n Hn) as Hq.
  unfold binary_round. rewrite Hdp, fexp_normal by lia.
  unfold shl_align.
  destruct (Z.log2 n + 1 + j + e - 53 - e) as [|k|k] eqn:Ek.
  - (* exactly 53 digits *)
    rewrite binary_round_aux_canonical by lia.
    unfold dyadic. f_equal; [|lia].
    apply Pos2Z.inj. rewrite Z2Pos.id by assumption.
    rewrite Hp. f_equal. f_equal. lia.
  - (* more than 53 digits: [k] zeros to drop *)
    assert (Ep : p = Pos.iter xO (Z.to_pos (n * 2 ^ (52 - Z.log2 n))) k).
    { apply Pos2Z.inj. rewrite Zpos_iter_xO, Z2Pos.id, Hp by assumption.
      rewrite <- Z.mul_assoc, <- Z.pow_add_r by lia. f_equal. f_equal. lia. }
    unfold binary_round_aux, shr_fexp.
    cbn [Zdigits2 shr_record_of_loc]. rewrite Hdp, fexp_normal by lia.
    replace (Z.log2 n + 1 + j + e - 53 - e) with (Zpos k) by lia.
    cbn [shr]. rewrite Ep, !shr_zeros.
    cbn [shr_m loc_of_shr_record round_nearest_even Zdigits2 shr_record_of_loc].
    rewrite Hq, fexp_normal by lia.
    replace (53 + (e + Zpos k) - 53 - (e + Zpos k)) with 0 by lia.
    cbn [shr shr_m]. unfold prec, emax, dyadic.
    destruct (Z.leb_spec (e + Zpos k) (1024 - 53)); [|lia].
    f_equal. lia.
  - (* fewer than 53 digits: [k] zeros to add *)
    rewrite binary_round_aux_canonical.
    + unfold dyadic. f_equal; [|lia].
      apply Pos2Z.inj. rewrite Zpos_iter_xO, Z2Pos.id, Hp by assumption.
      rewrite <- Z.mul_assoc, <- Z.pow_add_r by lia. f_equal. f_equal. lia.
    + rewrite digits_log2, Zpos_iter_xO, Z.log2_mul_pow2 by lia.
      pose proof (digits_log2 p). lia.
    + lia.
Qed.

Lemma ofZ_dyadic (n : Z) : 0 < n < 2 ^ 53 -> ofZ n = dyadic false n 0.
Proof.
  intros Hn. unfold ofZ, binary_normalize. destruct n as [|p|p]; try lia.
  apply (binary_round_dyadic false p 0 (Zpos p) 0); try lia.
Qed.

(** Doubling the integer and halving the unit is the same number. *)
Lemma dyadic_double (n e : Z) :
  0 < n < 2 ^ 52 -> dyadic false (2 * n) (e - 1) = dyadic false n e.
Proof.
  intros Hn. unfold dyadic. rewrite Z.log2_double by lia.
  assert (Hl : 0 <= Z.log2 n < 52).
  { split; [apply Z.log2_nonneg | apply Z.log2_lt_pow2; lia]. }
  f_equal; [|lia]. f_equal.
  replace (52 - Z.log2 n) with (Z.succ (52 - Z.succ (Z.log2 n))) by lia.
  rewrite Z.pow_succ_r by lia. ring.
Qed.

Lemma ofZ_2 : ofZ 2 = S754_finite false 4503599627370496 (-51).
Proof. reflexivity. Qed.

(** Halving is exact. *)
Lemma div_dyadic_2 (n e : Z) :
  0 < n < 2 ^ 53 -> -900 <= e <= 900 ->
  div (dyadic false n e) (ofZ 2) = dyadic false n (e - 1).
Proof.
  intros Hn He.
  assert (Hl : 0 <= Z.log2 n < 53).
  { split; [apply Z.log2_nonneg | apply Z.log2_lt_pow2; lia]. }
  pose proof (dyadic_digits n Hn) as Hq.
  rewrite ofZ_2. unfold dyadic in *.
  set (m := Z.to_pos (n * 2 ^ (52 - Z.log2 n))) in *.
  set (t := e + Z.log2 n - 52).
  unfold div, SFdiv, SFdiv_core_binary. cbn [xorb Zdigits2].
  rewrite Hq. change (Z.pos (digits2_pos 4503599627370496)) with 53.
  rewrite fexp_normal by lia.
  replace (Z.min (53 + t - (53 + -51) - 53) (t - -51)) with (t - 2) by lia.
  replace (t - -51 - (t - 2)) with 53 by lia.
  rewrite Z.shiftl_mul_pow2 by lia.
  pose proof (Z_div_mod (Z.pos m * 2 ^ 53) 4503599627370496 eq_refl) as Hdiv.
  destruct (Z.div_eucl (Z.pos m * 2 ^ 53) 4503599627370496) as [q r].
  destruct Hdiv as [Hqr Hr].
  assert (r = 0 /\ q = Z.pos m~0) as [-> ->].
  { change (2 ^ 53) with (2 * 4503599627370496) in Hqr. lia. }
  change (new_location 4503599627370496 0) with loc_Exact.
  unfold binary_round_aux, shr_fexp.
  cbn [Zdigits2 shr_record_of_loc digits2_pos].
  rewrite Pos2Z.inj_succ, Hq, fexp_normal by lia.
  replace (Z.succ 53 + (t - 2) - 53 - (t - 2)) with 1 by lia.
  cbn [shr iter_pos shr_1 orb shr_m loc_of_shr_record round_nearest_even Zdigits2
       shr_record_of_loc].
  rewrite Hq, fexp_normal by lia.
  replace (53 + (t - 2 + 1) - 53 - (t - 2 + 1)) with 0 by lia.
  cbn [shr shr_m]. unfold prec, emax.
  destruct (Z.leb_spec (t - 2 + 1) (1024 - 53)); [|lia].
  f_equal. lia.
Qed.

(** Aligning the digits of [n * 2^e] on a smaller exponent. *)
Lemma shl_align_dyadic (m : positive) (n e l : Z) :
  0 < n -> 0 <= l <= Z.log2 n -> Z.log2 n < 53 ->
  Zpos m = n * 2 ^ (52 - Z.log2 n) ->
  Zpos (fst (shl_align m (e + Z.log2 n - 52) (e + l - 52))) = n * 2 ^ (52 - l).
Proof.
  intros Hn Hl Hln Hm. unfold shl_align.
  destruct (e + l - 52 - (e + Z.log2 n - 52)) as [|k|k] eqn:Ek; cbn [fst].
  - rewrite Hm. f_equal. f_equal. lia.
  - lia.
  - rewrite Zpos_iter_xO, Hm, <- Z.mul_assoc, <- Z.pow_add_r by lia.
    f_equal. f_equal. lia.
Qed.

(** Subtracting a number of the same unit is exact. *)
Lemma sub_dyadic (a b e : Z) :
  0 < a < 2 ^ 53 -> 0 < b < 2 ^ 53 -> -900 <= e <= 900 ->
  sub (dyadic false a e) (dyadic false b e)
  = match a ?= b with
    | Eq => S754_zero false
    | Gt => dyadic false (a - b) e
    | Lt => dyadic true (b - a) e
    end.
Proof.
  intros Ha Hb He.
  assert (Hla : 0 <= Z.log2 a < 53).
  { split; [apply Z.log2_nonneg | apply Z.log2_lt_pow2; lia]. }
  assert (Hlb : 0 <= Z.log2 b < 53).
  { split; [apply Z.log2_nonneg | apply Z.log2_lt_pow2; lia]. }
  assert (Hpa : 0 < a * 2 ^ (52 - Z.log2 a)).
  { apply Z.mul_pos_pos; [lia | apply Z.pow_pos_nonneg; lia]. }
  assert (Hpb : 0 < b * 2 ^ (52 - Z.log2 b)).
  { apply Z.mul_pos_pos; [lia | apply Z.pow_pos_nonneg; lia]. }
  set (l := Z.min (Z.log2 a) (Z.log2 b)).
  assert (Hl : 0 <= l <= Z.log2 a /\ l <= Z.log2 b) by lia.
  assert (Hpow : 0 < 2 ^ (52 - l)) by (apply Z.pow_pos_nonneg; lia).
  unfold dyadic at 1 2. unfold sub, SFsub.
  set (ma := Z.to_pos (a * 2 ^ (52 - Z.log2 a))).
  set (mb := Z.to_pos (b * 2 ^ (52 - Z.log2 b))).
  assert (Hma : Zpos ma = a * 2 ^ (52 - Z.log2 a)) by (apply Z2Pos.id; assumption).
  assert (Hmb : Zpos mb = b * 2 ^ (52 - Z.log2 b)) by (apply Z2Pos.id; assumption).
  replace (Z.min (e + Z.log2 a - 52) (e + Z.log2 b - 52)) with (e + l - 52) by lia.
  cbn [cond_Zopp].
  rewrite (shl_align_dyadic ma a e l), (shl_align_dyadic mb b e l) by (assumption || lia).
  destruct (Z.compare_spec a b) as [->|Hlt|Hgt].
  - now rewrite Z.sub_diag.
  - assert (a * 2 ^ (52 - l) < b * 2 ^ (52 - l))
      by (apply Z.mul_lt_mono_pos_r; assumption).
    destruct (a * 2 ^ (52 - l) - b * 2 ^ (52 - l)) as [|p|p] eqn:Ep; try lia.
    unfold binary_normalize.
    rewrite (binary_round_dyadic true p (e + l - 52) (b - a) (52 - l)) by lia.
    f_equal. lia.
  - assert (b * 2 ^ (52 - l) < a * 2 ^ (52 - l))
      by (apply Z.mul_lt_mono_pos_r; assumption).
    destruct (a * 2 ^ (52 - l) - b * 2 ^ (52 - l)) as [|p|p] eqn:Ep; try lia.
    unfold binary_normalize.
    rewrite (binary_round_dyadic false p (e + l - 52) (a - b) (52 - l)) by lia.
    f_equal. lia.
Qed.

(** Numbers of the same unit compare as their integers do. *)
Lemma compare_dyadic (a b e : Z) :
  0 < a < 2 ^ 53 -> 0 < b < 2 ^ 53 ->
  SFcompare (dyadic false a e) (dyadic false b e) = Some (a ?= b).
Proof.
  intros Ha Hb.
  assert (Hla : 0 <= Z.log2 a < 53).
  { split; [apply Z.log2_nonneg | apply Z.log2_lt_pow2; lia]. }
  assert (Hlb : 0 <= Z.log2 b < 53).
  { split; [apply Z.log2_nonneg | apply Z.log2_lt_pow2; lia]. }
  assert (Hpa : 0 < a * 2 ^ (52 - Z.log2 a)).
  { apply Z.mul_pos_pos; [lia | apply Z.pow_pos_nonneg; lia]. }
  assert (Hpb : 0 < b * 2 ^ (52 - Z.log2 b)).
  { apply Z.mul_pos_pos; [lia | apply Z.pow_pos_nonneg; lia]. }
  unfold dyadic. cbn [SFcompare]. f_equal.
  change (Pos.compare_cont Eq ?x ?y) with (Pos.compare x y).
  rewrite Pos2Z.inj_compare, !Z2Pos.id by assumption.
  destruct (Z.compare_spec (e + Z.log2 a - 52) (e + Z.log2 b - 52)) as [E|E|E].
  - replace (Z.log2 b) with (Z.log2 a) by lia.
    destruct (Z.compare_spec a b) as [->|H|H].
    + apply Z.compare_refl.
    + apply Z.compare_lt_iff. apply Z.mul_lt_mono_pos_r; [apply Z.pow_pos_nonneg|]; lia.
    + apply Z.compare_gt_iff. apply Z.mul_lt_mono_pos_r; [apply Z.pow_pos_nonneg|]; lia.
  - symmetry. apply Z.compare_lt_iff.
    destruct (Z.lt_ge_cases a b) as [H|H]; [assumption|].
    assert (Z.log2 b <= Z.log2 a) by (apply Z.log2_le_mono; lia). lia.
  - symmetry. apply Z.compare_gt_iff.
    destruct (Z.lt_ge_cases b a) as [H|H]; [assumption|].
    assert (Z.log2 a <= Z.log2 b) by (apply Z.log2_le_mono; lia). lia.
Qed.

(** For an element [w] pixels wide in a parent [W] pixels wide, the lower
    bound [w / 2] is at most the upper bound [W - w / 2] exactly when the
    element is not the wider one. *)
Lemma integer_sizes (w W : Z) :
  0 <= w < 2 ^ 52 -> 0 <= W < 2 ^ 52 ->
  le (div (ofZ w) (ofZ 2)) (sub (ofZ W) (div (ofZ w) (ofZ 2))) = (w <=? W)
  /\ lt (sub (ofZ W) (div (ofZ w) (ofZ 2))) (div (ofZ w) (ofZ 2)) = (W <? w).
Proof.
  intros Hw HW.
  destruct (Z.eq_dec w 0) as [->|Hw0].
  - change (div (ofZ 0) (ofZ 2)) with (S754_zero false).
    destruct (Z.eq_dec W 0) as [->|HW0]; [split; reflexivity|].
    rewrite (ofZ_dyadic W) by lia.
    destruct (Z.leb_spec 0 W), (Z.ltb_spec W 0); try lia. split; reflexivity.
  - rewrite (ofZ_dyadic w) by lia. rewrite div_dyadic_2 by lia.
    destruct (Z.eq_dec W 0) as [->|HW0].
    + destruct (Z.leb_spec w 0), (Z.ltb_spec 0 w); try lia. split; reflexivity.
    + rewrite (ofZ_dyadic W) by lia.
      rewrite <- (dyadic_double W 0) by lia.
      rewrite sub_dyadic by lia.
      unfold le, lt, SFleb, SFltb.
      destruct (Z.compare_spec (2 * W) w) as [E|E|E].
      * destruct (Z.leb_spec w W), (Z.ltb_spec W w); try lia. split; reflexivity.
      * destruct (Z.leb_spec w W), (Z.ltb_spec W w); try lia. split; reflexivity.
      * rewrite !compare_dyadic by lia.
        destruct (Z.compare_spec w (2 * W - w)), (Z.compare_spec (2 * W - w) w),
                 (Z.leb_spec w W), (Z.ltb_spec W w);
          try lia; split; reflexivity.
Qed.

(** Adding a number of the same unit is exact while the sum has 53 digits
    or fewer. *)
Lemma add_dyadic (a b e : Z) :
  0 < a -> 0 < b -> a + b < 2 ^ 53 -> -900 <= e <= 900 ->
  add (dyadic false a e) (dyadic false b e) = dyadic false (a + b) e.
Proof.
  intros Ha Hb Hab He.
  assert (Hla : 0 <= Z.log2 a < 53).
  { split; [apply Z.log2_nonneg | apply Z.log2_lt_pow2; lia]. }
  assert (Hlb : 0 <= Z.log2 b < 53).
  { split; [apply Z.log2_nonneg | apply Z.log2_lt_pow2; lia]. }
  assert (Hpa : 0 < a * 2 ^ (52 - Z.log2 a)).
  { apply Z.mul_pos_pos; [lia | apply Z.pow_pos_nonneg; lia]. }
  assert (Hpb : 0 < b * 2 ^ (52 - Z.log2 b)).
  { apply Z.mul_pos_pos; [lia | apply Z.pow_pos_nonneg; lia]. }
  set (l := Z.min (Z.log2 a) (Z.log2 b)).
  assert (Hl : 0 <= l <= Z.log2 a /\ l <= Z.log2 b) by lia.
  assert (Hpow : 0 < 2 ^ (52 - l)) by (apply Z.pow_pos_nonneg; lia).
  unfold dyadic at 1 2. unfold add, SFadd.
  set (ma := Z.to_pos (a * 2 ^ (52 - Z.log2 a))).
  set (mb := Z.to_pos (b * 2 ^ (52 - Z.log2 b))).
  assert (Hma : Zpos ma = a * 2 ^ (52 - Z.log2 a)) by (apply Z2Pos.id; assumption).
  assert (Hmb : Zpos mb = b * 2 ^ (52 - Z.log2 b)) by (apply Z2Pos.id; assumption).
  replace (Z.min (e + Z.log2 a - 52) (e + Z.log2 b - 52)) with (e + l - 52) by lia.
  cbn [cond_Zopp].
  rewrite (shl_align_dyadic ma a e l), (shl_align_dyadic mb b e l) by (assumption || lia).
  assert (0 < a * 2 ^ (52 - l)) by (apply Z.mul_pos_pos; lia).
  assert (0 < b * 2 ^ (52 - l)) by (apply Z.mul_pos_pos; lia).
  destruct (a * 2 ^ (52 - l) + b * 2 ^ (52 - l)) as [|p|p] eqn:Ep; try lia.
  unfold binary_normalize.
  rewrite (binary_round_dyadic false p (e + l - 52) (a + b) (52 - l)) by lia.
  f_equal. lia.
Qed.

(** A counter that starts at 0 and is incremented holds integers, and
    incrementing it is adding one to the integer, below 2^53. *)
Lemma increment_exact (n : Z) :
  0 <= n -> n + 1 < 2 ^ 53 -> add (ofZ n) (ofZ 1) = ofZ (n + 1).
Proof.
  intros Hn Hb. destruct (Z.eq_dec n 0) as [->|H0]; [reflexivity|].
  rewrite (ofZ_dyadic n), (ofZ_dyadic 1), (ofZ_dyadic (n + 1)) by lia.
  apply add_dyadic; lia.
Qed.

(** [===] on integers held in numbers is equality of the integers. *)
Lemma strictEq_integers (a b : Z) :
  0 <= a < 2 ^ 53 -> 0 <= b < 2 ^ 53 ->
  strictEq (ofZ a) (ofZ b) = (a =? b).
Proof.
  intros Ha Hb. unfold strictEq, SFeqb.
  destruct (Z.eq_dec a 0) as [->|Ha0], (Z.eq_dec b 0) as [->|Hb0].
  - reflexivity.
  - rewrite (ofZ_dyadic b) by lia. destruct (Z.eqb_spec 0 b); [lia | reflexivity].
  - rewrite (ofZ_dyadic a) by lia. destruct (Z.eqb_spec a 0); [lia | reflexivity].
  - rewrite (ofZ_dyadic a), (ofZ_dyadic b), compare_dyadic by lia.
    destruct (Z.compare_spec a b), (Z.eqb_spec a b); try lia; reflexivity.
Qed.

End Exact.

(** ** The drag constraint *)

Module Constraint.

Import JS NumberOrder PromptController.

Lemma Math_min_not_nan (a b : number) :
  isNaN a = false -> isNaN b = false -> isNaN (Math_min a b) = false.
Proof.
  intros Ha Hb.
  destruct (Math_min_cases a b Ha Hb) as [[-> _]|[-> _]]; assumption.
Qed.

Lemma Math_min_le_r (a b : number) :
  isNaN a = false -> isNaN b = false -> le (Math_min a b) b = true.
Proof.
  intros Ha Hb.
  destruct (Math_min_cases a b Ha Hb) as [[-> H]|[-> _]].
  - now apply not_lt_le.
  - now apply le_refl.
Qed.

(** When the lower bound does not exceed the upper one, the result lies
    between them. *)
Lemma constrain_within (v half extent : number) :
  isNaN v = false ->
  le half (sub extent half) = true ->
  le half (constrain v half extent) = true
  /\ le (constrain v half extent) (sub extent half) = true.
Proof.
  intros Hv Hfit. unfold constrain.
  destruct (le_not_nan _ _ Hfit) as [Hh Hm].
  pose proof (Math_min_not_nan _ _ Hv Hm) as Hmin.
  destruct (Math_max_cases half _ Hh Hmin) as [[-> _]|[-> Hle]].
  - split; [now apply le_refl | assumption].
  - split; [assumption | now apply Math_min_le_r].
Qed.

(** When the upper bound is below the lower one, the result is the lower
    bound. *)
Lemma constrain_degenerate (v half extent : number) :
  isNaN v = false ->
  lt (sub extent half) half = true ->
  constrain v half extent = half.
Proof.
  intros Hv Hdeg. unfold constrain.
  destruct (lt_not_nan _ _ Hdeg) as [Hm Hh].
  pose proof (Math_min_not_nan _ _ Hv Hm) as Hmin.
  destruct (Math_max_cases half _ Hh Hmin) as [[-> _]|[_ Hle]]; [reflexivity|].
  pose proof (le_trans _ _ _ Hle (Math_min_le_r _ _ Hv Hm)) as Habs.
  rewrite (lt_not_le _ _ Hdeg) in Habs. discriminate.
Qed.

End Constraint.

(** ** Levels, weights and MIDI values *)

Module Intensity.

Import JS.

Lemma Object_is_eq (a b : number) : Object_is a b = true -> a = b.
Proof.
  destruct a as [s|s| |s m e], b as [s'|s'| |s' m' e']; simpl;
    try discriminate; try reflexivity.
  - intros H. apply Bool.eqb_prop in H. now subst.
  - intros H. apply Bool.eqb_prop in H. now subst.
  - intros H. apply andb_prop in H as [H He]. apply andb_prop in H as [Hs Hm].
    apply Bool.eqb_prop in Hs. apply Pos.eqb_eq in Hm. apply Z.eqb_eq in He.
    now subst.
Qed.

(** The literals of the sources, bit for bit: [2.5] is [0x1.4p+1], [2.2]
    is [0x1.199999999999ap+1], [0.4] is [0x1.999999999999ap-2]; and those
    of the statements below: [1.2] is [0x1.3333333333333p+0], [0.9] is
    [0x1.ccccccccccccdp-1], [1.6] is [0x1.999999999999ap+0]. *)
Lemma literals :
  lit 25 10 = S754_finite false 0x14000000000000 (-51)
  /\ lit 22 10 = S754_finite false 0x1199999999999a (-51)
  /\ lit 4 10 = S754_finite false 0x1999999999999a (-54)
  /\ lit 12 10 = S754_finite false 0x13333333333333 (-52)
  /\ lit 9 10 = S754_finite false 0x1ccccccccccccd (-53)
  /\ lit 16 10 = S754_finite false 0x1999999999999a (-52)
  /\ sub (lit 22 10) (ofZ 1) = S754_finite false 0x13333333333334 (-52).
Proof.
  repeat split; vm_compute; reflexivity.
Qed.

(** A check over the integers [lo, lo + 1, ..., lo + n - 1] settles the
    property on that range. *)
Lemma forall_range (P : Z -> Prop) (check : Z -> bool) (lo : Z) (n : nat) :
  (forall v, check v = true -> P v) ->
  forallb check (map (fun k => lo + Z.of_nat k) (seq 0 n)) = true ->
  forall v, lo <= v < lo + Z.of_nat n -> P v.
Proof.
  intros Hcheck Hall v Hv. apply Hcheck.
  rewrite forallb_forall in Hall. apply Hall.
  apply in_map_iff. exists (Z.to_nat (v - lo)). split; [lia|].
  apply in_seq. lia.
Qed.

Lemma levelIndex_sound (l : number) (k : Z) :
  PromptController.levelIndex l = Some k -> 0 <= k <= 5 /\ l = ofZ k.
Proof.
  intros H. apply find_some in H as [Hin Heq].
  apply Object_is_eq in Heq. split; [|assumption].
  simpl in Hin. lia.
Qed.

End Intensity.

(** C1.  For every level in {0, 1, 2, 3, 4, 5}, setting the level with
    [updateLevel] (the weight becomes [level / 2.5]) and reading it back
    with the [level] getter ([Math.round(weight * 2.5)]) returns the
    level. *)
Theorem level_weight_level_roundtrip (st : PromptController.State) (l : Z) :
  In l [0; 1; 2; 3; 4; 5] ->
  PromptController.level (fst (PromptController.updateLevel st (JS.ofZ l))) = JS.ofZ l.
Proof.
  intros Hl. unfold PromptController.level, PromptController.updateLevel. simpl fst.
  cbn [PromptController.prompt PromptController.set_prompt weight with_weight].
  simpl in Hl.
  repeat (destruct Hl as [<-|Hl]; [vm_compute; reflexivity|]).
  contradiction.
Qed.

Lemma level_weight_level_roundtrip_witness :
  PromptController.level
    (fst (PromptController.updateLevel (Scenario.idle Scenario.bass) (JS.ofZ 3)))
  = JS.ofZ 3.
Proof.
  apply (level_weight_level_roundtrip (Scenario.idle Scenario.bass) 3).
  simpl. tauto.
Defined.

(** C7.  [ccToLevel] sends every MIDI value from 0 to 127 to a level from
    0 to 5, the value 0 to level 0 and the value 127 to level 5; a
    [cc-message] for the prompt's own controller sets that level. *)
Theorem ccToLevel_range :
  (forall value, 0 <= value <= 127 ->
     exists k, 0 <= k <= 5 /\ PromptController.ccToLevel value = JS.ofZ k)
  /\ PromptController.ccToLevel 0 = JS.ofZ 0
  /\ PromptController.ccToLevel 127 = JS.ofZ 5
  /\ (forall st value,
        PromptController.onCCMessage st
          {| cc_number := cc (PromptController.prompt st); cc_value := value |}
        = PromptController.updateLevel st (PromptController.ccToLevel value)).
Proof.
  split; [|split; [|split]].
  - intros value Hv.
    apply (Intensity.forall_range
             (fun v => exists k, 0 <= k <= 5 /\ PromptController.ccToLevel v = JS.ofZ k)
             (fun v => match PromptController.levelIndex (PromptController.ccToLevel v) with
                       | Some _ => true | None => false end)
             0 128).
    + intros v Hc.
      destruct (PromptController.levelIndex (PromptController.ccToLevel v)) as [k|] eqn:E;
        [|discriminate].
      exists k. now apply Intensity.levelIndex_sound.
    + vm_compute. reflexivity.
    + lia.
  - vm_compute. reflexivity.
  - vm_compute. reflexivity.
  - intros st value. unfold PromptController.onCCMessage. simpl.
    now rewrite Z.eqb_refl.
Qed.

Lemma ccToLevel_range_witness :
  exists k, 0 <= k <= 5 /\ PromptController.ccToLevel 64 = JS.ofZ k.
Proof.
  apply (proj1 ccToLevel_range 64). lia.
Defined.

(** C10.  A click on dot [i] of the selector, [i] from 1 to 5, dispatches
    one [level-changed] event: with value 0 when [i] is the current level,
    with value [i] when the current level is another one. *)
Theorem dot_click_toggles (p : LevelSelector.Props) (i : Z) :
  In i [1; 2; 3; 4; 5] ->
  In (LevelSelector.dot p i) (snd (LevelSelector.render p))
  /\ (LevelSelector.level p = JS.ofZ i ->
      LevelSelector.click (LevelSelector.dot p i)
      = [LevelSelector.LevelChanged (JS.ofZ 0)])
  /\ (JS.strictEq (LevelSelector.level p) (JS.ofZ i) = false ->
      LevelSelector.click (LevelSelector.dot p i)
      = [LevelSelector.LevelChanged (JS.ofZ i)])
  /\ (forall k, In k [0; 1; 2; 3; 4; 5] -> k <> i ->
      JS.strictEq (JS.ofZ k) (JS.ofZ i) = false).
Proof.
  intros Hi. split; [|split; [|split]].
  - exact (in_map (LevelSelector.dot p) _ _ Hi).
  - intros Hl. unfold LevelSelector.dot, LevelSelector.selectLevel. simpl.
    rewrite Hl. simpl in Hi.
    repeat (destruct Hi as [<-|Hi]; [reflexivity|]). contradiction.
  - intros Hl. unfold LevelSelector.dot, LevelSelector.selectLevel. simpl.
    now rewrite Hl.
  - intros k Hk Hne. simpl in Hi, Hk.
    repeat (destruct Hi as [<-|Hi]; [|]);
      repeat (destruct Hk as [<-|Hk]; [try reflexivity; now elim Hne|]);
      contradiction.
Qed.

Lemma dot_click_toggles_witness :
  LevelSelector.click
    (LevelSelector.dot
       {| LevelSelector.level := JS.ofZ 2; LevelSelector.color := "#000";
          LevelSelector.audioLevel := JS.ofZ 0 |} 2)
  = [LevelSelector.LevelChanged (JS.ofZ 0)]
  /\ LevelSelector.click
       (LevelSelector.dot
          {| LevelSelector.level := JS.ofZ 2; LevelSelector.color := "#000";
             LevelSelector.audioLevel := JS.ofZ 0 |} 4)
     = [LevelSelector.LevelChanged (JS.ofZ 4)].
Proof.
  split.
  - destruct (dot_click_toggles
                {| LevelSelector.level := JS.ofZ 2; LevelSelector.color := "#000";
                   LevelSelector.audioLevel := JS.ofZ 0 |} 2) as (_ & H & _);
      [simpl; tauto | apply H; reflexivity].
  - destruct (dot_click_toggles
                {| LevelSelector.level := JS.ofZ 2; LevelSelector.color := "#000";
                   LevelSelector.audioLevel := JS.ofZ 0 |} 4) as (_ & _ & H & _);
      [simpl; tauto | apply H; reflexivity].
Defined.

(** ** The halo *)

(** C4, as the claim has it, does not hold at level 4: with no audio the
    halo is scaled by 1.9000000000000001 ([0x1.e666666666667p+0]), while
    [1 + ((4 - 1) / 4) * 1.2 + 0 * 1] is 1.9 ([0x1.e666666666666p+0]).
    The factor in [render] is [MAX_HALO_SCALE - MIN_HALO_SCALE], that is
    [2.2 - 1], which is 1.2000000000000002 and not 1.2. *)
Lemma halo_scale_level_4_differs :
  LevelSelector.scale
    (LevelSelector.haloStyle
       {| LevelSelector.level := JS.ofZ 4; LevelSelector.color := "#000";
          LevelSelector.audioLevel := JS.ofZ 0 |})
  = S754_finite false 0x1e666666666667 (-52)
  /\ JS.add
       (JS.add (JS.ofZ 1)
          (JS.mul (JS.div (JS.sub (JS.ofZ 4) (JS.ofZ 1)) (JS.ofZ 4)) (JS.lit 12 10)))
       (JS.mul (JS.ofZ 0) (JS.ofZ 1))
     = S754_finite false 0x1e666666666666 (-52)
  /\ LevelSelector.scale
       (LevelSelector.haloStyle
          {| LevelSelector.level := JS.ofZ 4; LevelSelector.color := "#000";
             LevelSelector.audioLevel := JS.ofZ 0 |})
     <> JS.add
          (JS.add (JS.ofZ 1)
             (JS.mul (JS.div (JS.sub (JS.ofZ 4) (JS.ofZ 1)) (JS.ofZ 4)) (JS.lit 12 10)))
          (JS.mul (JS.ofZ 0) (JS.ofZ 1)).
Proof.
  repeat split; try (vm_compute; reflexivity). vm_compute. discriminate.
Qed.

(** C4, amended.  At level 0 the halo is hidden and its scale is 1.  At
    every level above 0 it is shown and its scale is
    [1 + ((level - 1) / 4) * (2.2 - 1) + audioLevel * 1]; at the levels 1,
    2, 3 and 5 that is the value with the factor 1.2, whatever the audio
    level.  A filtered controller hands the selector the audio level 0
    whatever its own is, so that a filtered prompt at level 3 with audio
    level 0.9 gets the scale 1.6. *)
Theorem halo_scale (c : string) (a : JS.number) :
  LevelSelector.haloStyle
    {| LevelSelector.level := JS.ofZ 0; LevelSelector.color := c;
       LevelSelector.audioLevel := a |}
  = {| LevelSelector.display := LevelSelector.None_;
       LevelSelector.background := c;
       LevelSelector.scale := JS.ofZ 1 |}
  /\ (forall l, JS.gt l (JS.ofZ 0) = true ->
      LevelSelector.haloStyle
        {| LevelSelector.level := l; LevelSelector.color := c;
           LevelSelector.audioLevel := a |}
      = {| LevelSelector.display := LevelSelector.Block;
           LevelSelector.background := c;
           LevelSelector.scale :=
             JS.add
               (JS.add (JS.ofZ 1)
                  (JS.mul (JS.div (JS.sub l (JS.ofZ 1)) (JS.ofZ 4))
                          (JS.sub (JS.lit 22 10) (JS.ofZ 1))))
               (JS.mul a (JS.ofZ 1)) |})
  /\ (forall l, In l [1; 2; 3; 5] ->
      LevelSelector.haloScale
        {| LevelSelector.level := JS.ofZ l; LevelSelector.color := c;
           LevelSelector.audioLevel := a |}
      = JS.add
          (JS.add (JS.ofZ 1)
             (JS.mul (JS.div (JS.sub (JS.ofZ l) (JS.ofZ 1)) (JS.ofZ 4)) (JS.lit 12 10)))
          (JS.mul a (JS.ofZ 1)))
  /\ (forall st, PromptController.filtered st = true ->
      LevelSelector.audioLevel (PromptController.render st) = JS.ofZ 0)
  /\ PromptController.level Scenario.filtered_loud = JS.ofZ 3
  /\ PromptController.audioLevel Scenario.filtered_loud = JS.lit 9 10
  /\ LevelSelector.scale
       (LevelSelector.haloStyle (PromptController.render Scenario.filtered_loud))
     = JS.lit 16 10.
Proof.
  split; [reflexivity|].
  split.
  { intros l Hl. unfold LevelSelector.haloStyle, LevelSelector.haloScale.
    cbn [LevelSelector.level LevelSelector.color LevelSelector.audioLevel].
    rewrite Hl. reflexivity. }
  split.
  { intros l Hl. unfold LevelSelector.haloScale.
    cbn [LevelSelector.level LevelSelector.color LevelSelector.audioLevel].
    simpl in Hl.
    repeat (destruct Hl as [<-|Hl];
            [change (JS.gt (JS.ofZ _) (JS.ofZ 0)) with true; cbv iota;
             apply (f_equal (fun s => JS.add s _)); vm_compute; reflexivity|]).
    contradiction. }
  split.
  { intros st Hf. unfold PromptController.render. simpl. now rewrite Hf. }
  repeat split; vm_compute; reflexivity.
Qed.

Lemma halo_scale_witness :
  LevelSelector.haloStyle
    {| LevelSelector.level := JS.ofZ 3; LevelSelector.color := "#888";
       LevelSelector.audioLevel := JS.ofZ 0 |}
  = {| LevelSelector.display := LevelSelector.Block;
       LevelSelector.background := "#888";
       LevelSelector.scale := JS.lit 16 10 |}
  /\ LevelSelector.audioLevel (PromptController.render Scenario.filtered_loud)
     = JS.ofZ 0.
Proof.
  destruct (halo_scale "#888" (JS.ofZ 0)) as (_ & Hshown & _ & Hfiltered & _).
  split.
  - rewrite (Hshown (JS.ofZ 3)); [vm_compute|]; reflexivity.
  - apply Hfiltered. reflexivity.
Defined.

(** ** Dragging *)

(** C3.  While a prompt is dragged inside a parent, and the element fits
    (on each axis the lower bound, half the element's extent, does not
    exceed the upper bound, the parent's extent less that half), every
    pointer move to a position that is a number leaves the prompt at
    [(x, y)] with [halfWidth <= x <= parentWidth - halfWidth] and
    [halfHeight <= y <= parentHeight - halfHeight].  An element of [w] by
    [h] pixels fits in a parent of [W] by [H] pixels when [w <= W] and
    [h <= H], that is when its half-extents do not exceed half the
    parent's extents.  In a parent of 1000 by 1000 an element of
    half-extent 50 asked to (5000, 5000) goes to (950, 950), and asked to
    (-200, -200) goes to (50, 50). *)
Theorem drag_position_within_parent :
  (forall (st : PromptController.State) (lay : PromptController.Layout)
          (e : PromptController.PointerEvent) (parentWidth parentHeight : JS.number),
      let halfWidth := JS.div (PromptController.offsetWidth lay) (JS.ofZ 2) in
      let halfHeight := JS.div (PromptController.offsetHeight lay) (JS.ofZ 2) in
      let requestedX :=
        JS.add (PromptController.promptStartX st)
               (JS.sub (PromptController.clientX e) (PromptController.dragStartX st)) in
      let requestedY :=
        JS.add (PromptController.promptStartY st)
               (JS.sub (PromptController.clientY e) (PromptController.dragStartY st)) in
      PromptController.isDragging st = true ->
      PromptController.parentElement lay = Some (parentWidth, parentHeight) ->
      JS.isNaN requestedX = false ->
      JS.isNaN requestedY = false ->
      JS.le halfWidth (JS.sub parentWidth halfWidth) = true ->
      JS.le halfHeight (JS.sub parentHeight halfHeight) = true ->
      PromptController.positionWithin
        (PromptController.prompt (fst (PromptController.handlePointerMove st lay e)))
        halfWidth halfHeight parentWidth parentHeight)
  /\ (forall (st : PromptController.State) (e : PromptController.PointerEvent)
             (w h W H : Z),
      let requestedX :=
        JS.add (PromptController.promptStartX st)
               (JS.sub (PromptController.clientX e) (PromptController.dragStartX st)) in
      let requestedY :=
        JS.add (PromptController.promptStartY st)
               (JS.sub (PromptController.clientY e) (PromptController.dragStartY st)) in
      PromptController.isDragging st = true ->
      0 <= w <= W -> W < 2 ^ 52 ->
      0 <= h <= H -> H < 2 ^ 52 ->
      JS.isNaN requestedX = false ->
      JS.isNaN requestedY = false ->
      PromptController.positionWithin
        (PromptController.prompt
           (fst (PromptController.handlePointerMove st (PromptController.pixelLayout w h W H) e)))
        (JS.div (JS.ofZ w) (JS.ofZ 2)) (JS.div (JS.ofZ h) (JS.ofZ 2))
        (JS.ofZ W) (JS.ofZ H))
  /\ (let st := fst (PromptController.handlePointerMove Scenario.grabbed
                       (PromptController.pixelLayout 100 100 1000 1000)
                       (Scenario.pointer 5000 5000)) in
      x (PromptController.prompt st) = Some (JS.ofZ 950)
      /\ y (PromptController.prompt st) = Some (JS.ofZ 950))
  /\ (let st := fst (PromptController.handlePointerMove Scenario.grabbed
                       (PromptController.pixelLayout 100 100 1000 1000)
                       (Scenario.pointer (-200) (-200))) in
      x (PromptController.prompt st) = Some (JS.ofZ 50)
      /\ y (PromptController.prompt st) = Some (JS.ofZ 50))
  /\ PromptController.constrain (JS.ofZ 5000) (JS.ofZ 50) (JS.ofZ 1000) = JS.ofZ 950
  /\ PromptController.constrain (JS.ofZ (-200)) (JS.ofZ 50) (JS.ofZ 1000) = JS.ofZ 50.
Proof.
  assert (Hgeneral :
    forall (st : PromptController.State) (lay : PromptController.Layout)
           (e : PromptController.PointerEvent) (parentWidth parentHeight : JS.number),
      PromptController.isDragging st = true ->
      PromptController.parentElement lay = Some (parentWidth, parentHeight) ->
      JS.isNaN (JS.add (PromptController.promptStartX st)
                  (JS.sub (PromptController.clientX e) (PromptController.dragStartX st)))
      = false ->
      JS.isNaN (JS.add (PromptController.promptStartY st)
                  (JS.sub (PromptController.clientY e) (PromptController.dragStartY st)))
      = false ->
      JS.le (JS.div (PromptController.offsetWidth lay) (JS.ofZ 2))
            (JS.sub parentWidth (JS.div (PromptController.offsetWidth lay) (JS.ofZ 2)))
      = true ->
      JS.le (JS.div (PromptController.offsetHeight lay) (JS.ofZ 2))
            (JS.sub parentHeight (JS.div (PromptController.offsetHeight lay) (JS.ofZ 2)))
      = true ->
      PromptController.positionWithin
        (PromptController.prompt (fst (PromptController.handlePointerMove st lay e)))
        (JS.div (PromptController.offsetWidth lay) (JS.ofZ 2))
        (JS.div (PromptController.offsetHeight lay) (JS.ofZ 2))
        parentWidth parentHeight).
  { intros st lay e parentWidth parentHeight Hdrag Hparent HnanX HnanY HfitX HfitY.
    unfold PromptController.handlePointerMove, PromptController.positionWithin.
    rewrite Hdrag, Hparent. cbn [negb fst].
    cbn [PromptController.prompt PromptController.set_prompt with_position x y].
    destruct (Constraint.constrain_within _ _ _ HnanX HfitX).
    destruct (Constraint.constrain_within _ _ _ HnanY HfitY).
    do 2 eexists. repeat split; eassumption. }
  split; [exact Hgeneral|].
  split.
  - intros st e w h W H requestedX requestedY Hdrag Hw HW Hh HH HnanX HnanY.
    apply (Hgeneral st (PromptController.pixelLayout w h W H) e (JS.ofZ W) (JS.ofZ H));
      try assumption; try reflexivity; cbn [PromptController.pixelLayout PromptController.offsetWidth
                                              PromptController.offsetHeight].
    + rewrite (proj1 (Exact.integer_sizes w W ltac:(lia) ltac:(lia))). now apply Z.leb_le.
    + rewrite (proj1 (Exact.integer_sizes h H ltac:(lia) ltac:(lia))). now apply Z.leb_le.
  - repeat split; vm_compute; reflexivity.
Qed.

Lemma drag_position_within_parent_witness :
  PromptController.positionWithin
    (PromptController.prompt
       (fst (PromptController.handlePointerMove Scenario.grabbed
               (PromptController.pixelLayout 100 100 1000 1000) (Scenario.pointer 5000 730))))
    (JS.ofZ 50) (JS.ofZ 50) (JS.ofZ 1000) (JS.ofZ 1000)
  /\ PromptController.positionWithin
       (PromptController.prompt
          (fst (PromptController.handlePointerMove Scenario.grabbed
                  (PromptController.pixelLayout 120 80 640 480) (Scenario.pointer 7 9000))))
       (JS.div (JS.ofZ 120) (JS.ofZ 2)) (JS.div (JS.ofZ 80) (JS.ofZ 2))
       (JS.ofZ 640) (JS.ofZ 480).
Proof.
  split.
  - apply (proj1 drag_position_within_parent Scenario.grabbed
                 (PromptController.pixelLayout 100 100 1000 1000) (Scenario.pointer 5000 730)
                 (JS.ofZ 1000) (JS.ofZ 1000)); vm_compute; reflexivity.
  - apply (proj1 (proj2 drag_position_within_parent) Scenario.grabbed
                 (Scenario.pointer 7 9000) 120 80 640 480);
      try reflexivity; lia.
Defined.

(** C2, as the claim has it, does not hold: an element of half-extent 150
    in a parent of extent 100 is put at 150, not at the parent's midpoint
    50. *)
Lemma degenerate_drag_not_at_midpoint :
  JS.lt (JS.ofZ 100) (JS.div (JS.ofZ 300) (JS.ofZ 2)) = true
  /\ x (PromptController.prompt
          (fst (PromptController.handlePointerMove Scenario.grabbed
                  (PromptController.pixelLayout 300 300 100 100) (Scenario.pointer 530 530))))
     = Some (JS.ofZ 150)
  /\ JS.ofZ 150 <> JS.div (JS.ofZ 100) (JS.ofZ 2).
Proof.
  repeat split; try (vm_compute; reflexivity). vm_compute. discriminate.
Qed.

(** C2, amended.  When on an axis the upper bound of the constraint (the
    parent's extent less half the element's) is below the lower bound
    (half the element's extent), a pointer move to a position that is a
    number puts the prompt, on that axis, at half the element's extent,
    whatever the position asked for.  That is so for an element of [w]
    pixels in a parent of [W] pixels whenever [W < w], and so whenever the
    half-extent exceeds the parent's extent. *)
Theorem degenerate_drag_pins_to_half_extent :
  (forall (st : PromptController.State) (lay : PromptController.Layout)
          (e : PromptController.PointerEvent) (parentWidth parentHeight : JS.number),
      let halfWidth := JS.div (PromptController.offsetWidth lay) (JS.ofZ 2) in
      let halfHeight := JS.div (PromptController.offsetHeight lay) (JS.ofZ 2) in
      let requestedX :=
        JS.add (PromptController.promptStartX st)
               (JS.sub (PromptController.clientX e) (PromptController.dragStartX st)) in
      let requestedY :=
        JS.add (PromptController.promptStartY st)
               (JS.sub (PromptController.clientY e) (PromptController.dragStartY st)) in
      PromptController.isDragging st = true ->
      PromptController.parentElement lay = Some (parentWidth, parentHeight) ->
      (JS.isNaN requestedX = false ->
       JS.lt (JS.sub parentWidth halfWidth) halfWidth = true ->
       x (PromptController.prompt (fst (PromptController.handlePointerMove st lay e)))
       = Some halfWidth)
      /\ (JS.isNaN requestedY = false ->
          JS.lt (JS.sub parentHeight halfHeight) halfHeight = true ->
          y (PromptController.prompt (fst (PromptController.handlePointerMove st lay e)))
          = Some halfHeight))
  /\ (forall (st : PromptController.State) (e : PromptController.PointerEvent)
             (w h W H : Z),
      let requestedX :=
        JS.add (PromptController.promptStartX st)
               (JS.sub (PromptController.clientX e) (PromptController.dragStartX st)) in
      let requestedY :=
        JS.add (PromptController.promptStartY st)
               (JS.sub (PromptController.clientY e) (PromptController.dragStartY st)) in
      PromptController.isDragging st = true ->
      (JS.isNaN requestedX = false ->
       0 <= W < w -> w < 2 ^ 52 ->
       x (PromptController.prompt
            (fst (PromptController.handlePointerMove st (PromptController.pixelLayout w h W H) e)))
       = Some (JS.div (JS.ofZ w) (JS.ofZ 2)))
      /\ (JS.isNaN requestedY = false ->
          0 <= H < h -> h < 2 ^ 52 ->
          y (PromptController.prompt
               (fst (PromptController.handlePointerMove st (PromptController.pixelLayout w h W H) e)))
          = Some (JS.div (JS.ofZ h) (JS.ofZ 2)))).
Proof.
  assert (Hgeneral :
    forall (st : PromptController.State) (lay : PromptController.Layout)
           (e : PromptController.PointerEvent) (parentWidth parentHeight : JS.number),
      PromptController.isDragging st = true ->
      PromptController.parentElement lay = Some (parentWidth, parentHeight) ->
      (JS.isNaN (JS.add (PromptController.promptStartX st)
                   (JS.sub (PromptController.clientX e) (PromptController.dragStartX st)))
       = false ->
       JS.lt (JS.sub parentWidth (JS.div (PromptController.offsetWidth lay) (JS.ofZ 2)))
             (JS.div (PromptController.offsetWidth lay) (JS.ofZ 2)) = true ->
       x (PromptController.prompt (fst (PromptController.handlePointerMove st lay e)))
       = Some (JS.div (PromptController.offsetWidth lay) (JS.ofZ 2)))
      /\ (JS.isNaN (JS.add (PromptController.promptStartY st)
                      (JS.sub (PromptController.clientY e) (PromptController.dragStartY st)))
          = false ->
          JS.lt (JS.sub parentHeight (JS.div (PromptController.offsetHeight lay) (JS.ofZ 2)))
                (JS.div (PromptController.offsetHeight lay) (JS.ofZ 2)) = true ->
          y (PromptController.prompt (fst (PromptController.handlePointerMove st lay e)))
          = Some (JS.div (PromptController.offsetHeight lay) (JS.ofZ 2)))).
  { intros st lay e parentWidth parentHeight Hdrag Hparent.
    unfold PromptController.handlePointerMove.
    rewrite Hdrag, Hparent. cbn [negb fst].
    cbn [PromptController.prompt PromptController.set_prompt with_position x y].
    split; intros Hnan Hdeg; f_equal; now apply Constraint.constrain_degenerate. }
  split; [exact Hgeneral|].
  intros st e w h W H requestedX requestedY Hdrag.
  destruct (Hgeneral st (PromptController.pixelLayout w h W H) e (JS.ofZ W) (JS.ofZ H) Hdrag eq_refl)
    as [Hx Hy].
  cbn [PromptController.pixelLayout PromptController.offsetWidth PromptController.offsetHeight] in Hx, Hy.
  split.
  - intros Hnan HW Hw. apply Hx; [assumption|].
    rewrite (proj2 (Exact.integer_sizes w W ltac:(lia) ltac:(lia))). now apply Z.ltb_lt.
  - intros Hnan HH Hh. apply Hy; [assumption|].
    rewrite (proj2 (Exact.integer_sizes h H ltac:(lia) ltac:(lia))). now apply Z.ltb_lt.
Qed.

Lemma degenerate_drag_pins_to_half_extent_witness :
  x (PromptController.prompt
       (fst (PromptController.handlePointerMove Scenario.grabbed
               (PromptController.pixelLayout 300 80 100 100) (Scenario.pointer 530 530))))
  = Some (JS.div (JS.ofZ 300) (JS.ofZ 2))
  /\ y (PromptController.prompt
          (fst (PromptController.handlePointerMove Scenario.grabbed
                  (PromptController.pixelLayout 30 250 100 100) (Scenario.pointer 530 530))))
     = Some (JS.div (JS.ofZ 250) (JS.ofZ 2)).
Proof.
  split.
  - apply (proj1 (proj1 degenerate_drag_pins_to_half_extent Scenario.grabbed
                    (PromptController.pixelLayout 300 80 100 100) (Scenario.pointer 530 530)
                    (JS.ofZ 100) (JS.ofZ 100) eq_refl eq_refl));
      vm_compute; reflexivity.
  - apply (proj2 (proj2 degenerate_drag_pins_to_half_extent Scenario.grabbed
                    (Scenario.pointer 530 530) 30 250 100 100 eq_refl));
      try reflexivity; lia.
Defined.

(** ** The drag session *)

Module Drag.

Import PromptController.

Lemma run_app (st : State) (l1 l2 : list Input) :
  run st (l1 ++ l2)
  = (fst (run (fst (run st l1)) l2),
     snd (run st l1) ++ snd (run (fst (run st l1)) l2)).
Proof.
  revert st. induction l1 as [|i l1 IH]; intros st; simpl.
  - now destruct (run st l2).
  - destruct (deliver st i) as [st1 out1]. rewrite IH.
    destruct (run st1 l1) as [st2 out2]. simpl.
    now rewrite app_assoc.
Qed.

Lemma pointer_down_starts (st : State) (down : PointerEvent) :
  hostPointerDown st = true -> onControl down = false ->
  deliver st (PointerDown down) = (fst (deliver st (PointerDown down)), [])
  /\ dragging (prompt st) down (fst (deliver st (PointerDown down))).
Proof.
  intros Hh Hc. simpl. rewrite Hh. unfold handlePointerDown. rewrite Hc.
  split; [reflexivity|]. now constructor.
Qed.

Lemma pointer_move_drags (p0 : Prompt) (down : PointerEvent) (st : State)
    (lay : Layout) (e : PointerEvent) :
  dragging p0 down st ->
  deliver st (PointerMove lay e)
  = (set_prompt st
       (with_position (prompt st)
          (fst (expectedDragPosition p0 down lay e))
          (snd (expectedDragPosition p0 down lay e))), [])
  /\ dragging p0 down (fst (deliver st (PointerMove lay e))).
Proof.
  intros [Ha Hm Hu Hx Hy Hpx Hpy].
  assert (E : deliver st (PointerMove lay e)
              = (set_prompt st
                   (with_position (prompt st)
                      (fst (expectedDragPosition p0 down lay e))
                      (snd (expectedDragPosition p0 down lay e))), [])).
  { simpl. rewrite Hm. unfold handlePointerMove, expectedDragPosition.
    rewrite Ha, Hx, Hy, Hpx, Hpy. simpl negb. cbv iota.
    now destruct (parentElement lay) as [[pw ph]|]. }
  split; [exact E|]. rewrite E. now constructor.
Qed.

Lemma pointer_moves_drag (p0 : Prompt) (down : PointerEvent)
    (samples : list (Layout * PointerEvent)) (st : State) :
  dragging p0 down st ->
  snd (run st (pointerMoves samples)) = []
  /\ dragging p0 down (fst (run st (pointerMoves samples))).
Proof.
  revert st. induction samples as [|[lay e] samples IH]; intros st Hd; simpl.
  - now split.
  - destruct (pointer_move_drags p0 down st lay e Hd) as [E Hd'].
    change (if windowPointerMove st then handlePointerMove st lay e else (st, []))
      with (deliver st (PointerMove lay e)).
    destruct (deliver st (PointerMove lay e)) as [st1 out1] eqn:E1.
    simpl in Hd'. injection E as _ ->.
    destruct (IH st1 Hd') as [Hout Hd''].
    fold (pointerMoves samples).
    destruct (run st1 (pointerMoves samples)) as [st2 out2]. simpl in *.
    now subst.
Qed.

(** Once disconnected the component hears nothing. *)
Lemma disconnected_is_silent (later : list Input) (st : State) :
  hostPointerDown st = false -> windowPointerMove st = false ->
  windowPointerUp st = false ->
  snd (run st later) = [].
Proof.
  revert st. induction later as [|i later IH]; intros st Hh Hm Hu; [reflexivity|].
  simpl. destruct i; simpl; rewrite ?Hh, ?Hm, ?Hu.
  - specialize (IH st Hh Hm Hu). now destruct (run st later).
  - specialize (IH st Hh Hm Hu). now destruct (run st later).
  - specialize (IH st Hh Hm Hu). now destruct (run st later).
  - match goal with |- context [run ?s later] =>
      specialize (IH s eq_refl eq_refl eq_refl); now destruct (run s later) end.
Qed.

End Drag.

(** C9.  From a pointer-down outside the controls on, pointer moves
    dispatch nothing and each puts the prompt where the constraint says,
    given where the prompt and the pointer were at pointer-down; the
    pointer-up that follows dispatches exactly one [prompt-changed], whose
    detail is the prompt at the position of the last move, and removes the
    two listeners on [window]; disconnecting the component during the drag
    removes them too and dispatches nothing, then or on any later pointer
    input. *)
Theorem drag_session_notifications
    (st : PromptController.State) (down : PromptController.PointerEvent)
    (samples : list (PromptController.Layout * PromptController.PointerEvent)) :
  PromptController.hostPointerDown st = true ->
  PromptController.onControl down = false ->
  let during :=
    PromptController.run st
      (PromptController.PointerDown down :: PromptController.pointerMoves samples) in
  snd during = []
  /\ (forall lay e,
        let moved := PromptController.deliver (fst during) (PromptController.PointerMove lay e) in
        snd moved = []
        /\ x (PromptController.prompt (fst moved))
           = Some (fst (PromptController.expectedDragPosition
                          (PromptController.prompt st) down lay e))
        /\ y (PromptController.prompt (fst moved))
           = Some (snd (PromptController.expectedDragPosition
                          (PromptController.prompt st) down lay e)))
  /\ (let up := PromptController.deliver (fst during) PromptController.PointerUp in
      snd up = [PromptController.PromptChanged (PromptController.prompt (fst during))]
      /\ PromptController.prompt (fst up) = PromptController.prompt (fst during)
      /\ PromptController.isDragging (fst up) = false
      /\ PromptController.windowPointerMove (fst up) = false
      /\ PromptController.windowPointerUp (fst up) = false)
  /\ snd (PromptController.run st
            (PromptController.PointerDown down
               :: PromptController.pointerMoves samples ++ [PromptController.PointerUp]))
     = [PromptController.PromptChanged (PromptController.prompt (fst during))]
  /\ (let gone := PromptController.deliver (fst during) PromptController.Disconnected in
      snd gone = []
      /\ PromptController.windowPointerMove (fst gone) = false
      /\ PromptController.windowPointerUp (fst gone) = false)
  /\ (forall later,
        snd (PromptController.run st
               (PromptController.PointerDown down
                  :: PromptController.pointerMoves samples
                  ++ PromptController.Disconnected :: later))
        = []).
Proof.
  intros Hhost Hctl during.
  destruct (Drag.pointer_down_starts st down Hhost Hctl) as [Edown Hd0].
  assert (Hsplit : forall rest,
             PromptController.run st (PromptController.PointerDown down :: rest)
             = PromptController.run
                 (fst (PromptController.deliver st (PromptController.PointerDown down)))
                 rest).
  { intros rest. cbn [PromptController.run]. rewrite Edown.
    now destruct (PromptController.run _ rest). }
  destruct (Drag.pointer_moves_drag _ down samples _ Hd0) as [Hquiet Hd].
  assert (Eduring : during
                    = PromptController.run
                        (fst (PromptController.deliver st (PromptController.PointerDown down)))
                        (PromptController.pointerMoves samples))
    by apply Hsplit.
  rewrite <- Eduring in Hquiet, Hd.
  assert (Hup : PromptController.deliver (fst during) PromptController.PointerUp
                = PromptController.handlePointerUp (fst during)).
  { simpl. now rewrite (PromptController.drag_up _ _ _ Hd). }
  assert (Hup' : snd (PromptController.deliver (fst during) PromptController.PointerUp)
                 = [PromptController.PromptChanged (PromptController.prompt (fst during))]).
  { rewrite Hup. unfold PromptController.handlePointerUp.
    now rewrite (PromptController.drag_active _ _ _ Hd). }
  split; [exact Hquiet|].
  split.
  { intros lay e moved.
    destruct (Drag.pointer_move_drags _ down (fst during) lay e Hd) as [E _].
    subst moved. rewrite E. now repeat split. }
  split.
  { cbv zeta. split; [exact Hup'|]. rewrite Hup.
    unfold PromptController.handlePointerUp.
    rewrite (PromptController.drag_active _ _ _ Hd). now repeat split. }
  split.
  { rewrite Hsplit, Drag.run_app. cbn [snd]. rewrite <- Eduring, Hquiet.
    cbn [app PromptController.run].
    destruct (PromptController.deliver (fst during) PromptController.PointerUp)
      as [st' out'].
    simpl in Hup'. subst out'. reflexivity. }
  split.
  { now repeat split. }
  intros later. rewrite Hsplit, Drag.run_app. cbn [snd].
  rewrite <- Eduring, Hquiet. cbn [app PromptController.run PromptController.deliver].
  unfold PromptController.disconnectedCallback.
  match goal with |- context [PromptController.run ?s later] =>
    pose proof (Drag.disconnected_is_silent later s eq_refl eq_refl eq_refl) as Hs;
    destruct (PromptController.run s later) end.
  exact Hs.
Qed.

Lemma drag_session_notifications_witness :
  snd (PromptController.run (Scenario.idle Scenario.bass)
         (PromptController.PointerDown (Scenario.pointer 500 500)
            :: PromptController.pointerMoves
                 [(PromptController.pixelLayout 100 100 1000 1000, Scenario.pointer 700 650);
                  (PromptController.pixelLayout 100 100 1000 1000, Scenario.pointer 5000 5000)]
            ++ [PromptController.PointerUp]))
  = [PromptController.PromptChanged
       (with_position Scenario.bass (JS.ofZ 950) (JS.ofZ 950))].
Proof.
  destruct (drag_session_notifications (Scenario.idle Scenario.bass)
              (Scenario.pointer 500 500)
              [(PromptController.pixelLayout 100 100 1000 1000, Scenario.pointer 700 650);
               (PromptController.pixelLayout 100 100 1000 1000, Scenario.pointer 5000 5000)]
              eq_refl eq_refl) as (_ & _ & _ & H & _).
  rewrite H. vm_compute. reflexivity.
Defined.

(** ** The collection *)

Module Collection.

Import PromptDjMidi.

Lemma get_set_same {V : Type} (m : JSMap.t V) (k : string) (v : V) :
  JSMap.get (JSMap.set m k v) k = Some v.
Proof.
  induction m as [|[k' v'] m IH]; simpl.
  - now rewrite String.eqb_refl.
  - destruct (String.eqb k' k) eqn:E; simpl; now rewrite E.
Qed.

Lemma get_set_other {V : Type} (m : JSMap.t V) (k k' : string) (v : V) :
  k' <> k -> JSMap.get (JSMap.set m k v) k' = JSMap.get m k'.
Proof.
  intros Hne. induction m as [|[k0 v0] m IH]; simpl.
  - destruct (String.eqb_spec k k'); [congruence | reflexivity].
  - destruct (String.eqb_spec k0 k) as [->|Hk]; simpl.
    + destruct (String.eqb_spec k k'); [congruence | reflexivity].
    + now rewrite IH.
Qed.

Lemma get_delete_same {V : Type} (m : JSMap.t V) (k : string) :
  JSMap.get (JSMap.delete m k) k = None.
Proof.
  induction m as [|[k' v'] m IH]; simpl; [reflexivity|].
  destruct (String.eqb k' k) eqn:E; simpl; [assumption|]. now rewrite E.
Qed.

Lemma get_delete_some {V : Type} (m : JSMap.t V) (k k' : string) (v : V) :
  JSMap.get (JSMap.delete m k) k' = Some v -> JSMap.get m k' = Some v.
Proof.
  induction m as [|[k0 v0] m IH]; simpl; [easy|].
  destruct (String.eqb_spec k0 k) as [->|Hk]; simpl.
  - intros H. specialize (IH H).
    destruct (String.eqb_spec k k') as [<-|]; [|assumption].
    now rewrite get_delete_same in H.
  - destruct (String.eqb k0 k'); [easy | assumption].
Qed.

(** What [handleAddPrompt] does when it adds. *)
Lemma handleAddPrompt_adds (st : State) (dom : Dom) (d : DefaultPrompt) :
  promptSelect_value dom <> EmptyString ->
  JSMap.has (prompts st) (promptSelect_value dom) = false ->
  find (fun p => String.eqb (default_text p) (promptSelect_value dom)) (allPrompts st)
  = Some d ->
  exists added,
    prompts (fst (handleAddPrompt st dom))
    = JSMap.set (prompts st) (promptSelect_value dom) added
    /\ cc added = nextCC st
    /\ nextCC (fst (handleAddPrompt st dom)) = nextCC st + 1.
Proof.
  intros Hne Hhas Hfind. unfold handleAddPrompt.
  destruct (String.eqb_spec (promptSelect_value dom) EmptyString); [contradiction|].
  rewrite Hhas, Hfind. simpl. eexists. repeat split.
Qed.

Lemma find_palette (all : list DefaultPrompt) (name : string) :
  In name (map default_text all) ->
  exists d, find (fun p => String.eqb (default_text p) name) all = Some d.
Proof.
  induction all as [|d all IH]; simpl; [easy|].
  intros [<-|Hin].
  - rewrite String.eqb_refl. now exists d.
  - destruct (String.eqb (default_text d) name); [now exists d | auto].
Qed.

End Collection.

(** C5.  [handleAddPrompt] changes nothing and dispatches nothing when the
    selected name is empty or is a key of the collection; so adding "Bass"
    to a collection that holds a prompt under "Bass" leaves the size of the
    collection and that prompt, its [cc] included, as they were. *)
Theorem add_present_or_empty_is_noop
    (st : PromptDjMidi.State) (dom : PromptDjMidi.Dom) :
  (PromptDjMidi.promptSelect_value dom = EmptyString
   \/ JSMap.has (PromptDjMidi.prompts st) (PromptDjMidi.promptSelect_value dom) = true ->
   PromptDjMidi.handleAddPrompt st dom = (st, []))
  /\ (forall bass,
        PromptDjMidi.promptSelect_value dom = "Bass"%string ->
        JSMap.get (PromptDjMidi.prompts st) "Bass" = Some bass ->
        let st' := fst (PromptDjMidi.handleAddPrompt st dom) in
        JSMap.size (PromptDjMidi.prompts st') = JSMap.size (PromptDjMidi.prompts st)
        /\ (exists bass', JSMap.get (PromptDjMidi.prompts st') "Bass" = Some bass'
                          /\ cc bass' = cc bass)
        /\ PromptDjMidi.nextCC st' = PromptDjMidi.nextCC st).
Proof.
  assert (Hnoop : PromptDjMidi.promptSelect_value dom = EmptyString
                  \/ JSMap.has (PromptDjMidi.prompts st)
                       (PromptDjMidi.promptSelect_value dom) = true ->
                  PromptDjMidi.handleAddPrompt st dom = (st, [])).
  { intros H. unfold PromptDjMidi.handleAddPrompt.
    destruct H as [-> | ->]; [reflexivity|]. now rewrite orb_true_r. }
  split; [exact Hnoop|].
  intros bass Hsel Hget st'. subst st'. rewrite Hnoop.
  - simpl. repeat split. now exists bass.
  - right. rewrite Hsel. unfold JSMap.has. now rewrite Hget.
Qed.

Lemma add_present_or_empty_is_noop_witness :
  PromptDjMidi.handleAddPrompt Scenario.with_bass (Scenario.dom "Bass")
  = (Scenario.with_bass, [])
  /\ JSMap.size
       (PromptDjMidi.prompts
          (fst (PromptDjMidi.handleAddPrompt Scenario.with_bass (Scenario.dom "Bass"))))
     = 1%nat.
Proof.
  split.
  - apply (proj1 (add_present_or_empty_is_noop Scenario.with_bass (Scenario.dom "Bass"))).
    right. reflexivity.
  - destruct (proj2 (add_present_or_empty_is_noop Scenario.with_bass (Scenario.dom "Bass"))
                _ eq_refl eq_refl) as (H & _).
    rewrite H. reflexivity.
Defined.

(** C6, as the claim has it, does not hold for a prompt the collection was
    constructed with: the counter starts at 0 whatever the [cc] of such a
    prompt, so "Bass" constructed with [cc] 7, removed and added again,
    gets [cc] 0. *)
Lemma seeded_prompt_readded_with_smaller_cc :
  exists removed added,
    JSMap.get (PromptDjMidi.prompts Scenario.seeded) "Bass" = Some removed
    /\ JSMap.get
         (PromptDjMidi.prompts
            (fst (PromptDjMidi.handleAddPrompt
                    (fst (PromptDjMidi.handlePromptRemoved Scenario.seeded "Bass"))
                    (Scenario.dom "Bass"))))
         "Bass"
       = Some added
    /\ cc removed = 7 /\ cc added = 0 /\ ~ cc removed < cc added.
Proof.
  do 2 eexists. repeat split; try (vm_compute; reflexivity).
  vm_compute. discriminate.
Qed.

(** C6, amended.  The counter never decreases: [handleAddPrompt] leaves it
    or advances it by one, and the other two handlers leave it.  A prompt
    that [handleAddPrompt] creates gets the counter's value as [cc], a
    value the counter has passed afterwards, whatever the collection was
    constructed with; and all prompts of a collection constructed empty
    have a [cc] below the counter ([issued]), which adding, removing and a
    [prompt-changed] that keeps the [cc] preserve.  A prompt whose [cc] is
    below the counter, removed and added again under its name, a name of
    the palette, gets the counter's value as [cc]: strictly greater than
    the [cc] it had, and than the [cc] of every prompt of the collection
    whose [cc] is below the counter.  Nothing is asked of the other
    prompts. *)
Theorem readded_prompt_gets_greater_cc :
  (forall st dom,
      PromptDjMidi.nextCC st
      <= PromptDjMidi.nextCC (fst (PromptDjMidi.handleAddPrompt st dom))
      <= PromptDjMidi.nextCC st + 1)
  /\ (forall st id,
        PromptDjMidi.nextCC (fst (PromptDjMidi.handlePromptRemoved st id))
        = PromptDjMidi.nextCC st)
  /\ (forall st updated,
        PromptDjMidi.nextCC (fst (PromptDjMidi.handlePromptChanged st updated))
        = PromptDjMidi.nextCC st)
  /\ (forall st dom,
        PromptDjMidi.promptSelect_value dom <> EmptyString ->
        JSMap.has (PromptDjMidi.prompts st) (PromptDjMidi.promptSelect_value dom) = false ->
        In (PromptDjMidi.promptSelect_value dom)
           (map PromptDjMidi.default_text (PromptDjMidi.allPrompts st)) ->
        let st' := fst (PromptDjMidi.handleAddPrompt st dom) in
        exists added,
          JSMap.get (PromptDjMidi.prompts st') (PromptDjMidi.promptSelect_value dom)
          = Some added
          /\ cc added = PromptDjMidi.nextCC st
          /\ cc added < PromptDjMidi.nextCC st')
  /\ (forall all counter, PromptDjMidi.issued (PromptDjMidi.constructor [] all counter))
  /\ (forall st dom,
        PromptDjMidi.issued st ->
        PromptDjMidi.issued (fst (PromptDjMidi.handleAddPrompt st dom)))
  /\ (forall st id,
        PromptDjMidi.issued st ->
        PromptDjMidi.issued (fst (PromptDjMidi.handlePromptRemoved st id)))
  /\ (forall st updated old,
        JSMap.get (PromptDjMidi.prompts st) (promptId updated) = Some old ->
        cc updated = cc old ->
        PromptDjMidi.issued st ->
        PromptDjMidi.issued (fst (PromptDjMidi.handlePromptChanged st updated)))
  /\ (forall st dom removed,
        JSMap.get (PromptDjMidi.prompts st) (PromptDjMidi.promptSelect_value dom)
        = Some removed ->
        cc removed < PromptDjMidi.nextCC st ->
        PromptDjMidi.promptSelect_value dom <> EmptyString ->
        In (PromptDjMidi.promptSelect_value dom)
           (map PromptDjMidi.default_text (PromptDjMidi.allPrompts st)) ->
        let st1 := fst (PromptDjMidi.handlePromptRemoved st
                          (PromptDjMidi.promptSelect_value dom)) in
        let st2 := fst (PromptDjMidi.handleAddPrompt st1 dom) in
        exists added,
          JSMap.get (PromptDjMidi.prompts st2) (PromptDjMidi.promptSelect_value dom)
          = Some added
          /\ cc added = PromptDjMidi.nextCC st
          /\ cc removed < cc added
          /\ (forall k other,
                JSMap.get (PromptDjMidi.prompts st) k = Some other ->
                cc other < PromptDjMidi.nextCC st ->
                cc other < cc added)
          /\ PromptDjMidi.nextCC st2 = PromptDjMidi.nextCC st + 1).
Proof.
  assert (Hcount : forall st dom,
             PromptDjMidi.nextCC st
             <= PromptDjMidi.nextCC (fst (PromptDjMidi.handleAddPrompt st dom))
             <= PromptDjMidi.nextCC st + 1).
  { intros st dom. unfold PromptDjMidi.handleAddPrompt.
    destruct (_ || _); [simpl; lia|].
    destruct (find _ _) as [d|]; simpl; lia. }
  assert (Hadds : forall st dom,
             PromptDjMidi.promptSelect_value dom <> EmptyString ->
             JSMap.has (PromptDjMidi.prompts st) (PromptDjMidi.promptSelect_value dom)
             = false ->
             In (PromptDjMidi.promptSelect_value dom)
                (map PromptDjMidi.default_text (PromptDjMidi.allPrompts st)) ->
             exists added,
               JSMap.get (PromptDjMidi.prompts (fst (PromptDjMidi.handleAddPrompt st dom)))
                 (PromptDjMidi.promptSelect_value dom)
               = Some added
               /\ cc added = PromptDjMidi.nextCC st
               /\ PromptDjMidi.nextCC (fst (PromptDjMidi.handleAddPrompt st dom))
                  = PromptDjMidi.nextCC st + 1).
  { intros st dom Hne Hhas Hin.
    destruct (Collection.find_palette _ _ Hin) as [d Hd].
    destruct (Collection.handleAddPrompt_adds st dom d Hne Hhas Hd)
      as (added & Hp & Hcc & Hnext).
    exists added. rewrite Hp, Collection.get_set_same. now repeat split. }
  assert (Hadd : forall st dom,
             PromptDjMidi.issued st ->
             PromptDjMidi.issued (fst (PromptDjMidi.handleAddPrompt st dom))).
  { intros st dom. unfold PromptDjMidi.handleAddPrompt.
    destruct (_ || _); [simpl; auto|].
    destruct (find _ _) as [d|]; [|simpl; auto].
    simpl. intros Hi k p. unfold PromptDjMidi.issued in *. simpl.
    destruct (String.eqb_spec k (PromptDjMidi.promptSelect_value dom)) as [->|Hk].
    - rewrite Collection.get_set_same. intros [= <-]. simpl. lia.
    - rewrite Collection.get_set_other by assumption.
      intros H. apply Hi in H. lia. }
  split; [exact Hcount|].
  split; [reflexivity|].
  split; [reflexivity|].
  split.
  { intros st dom Hne Hhas Hin st'. subst st'.
    destruct (Hadds st dom Hne Hhas Hin) as (added & Hget & Hcc & Hnext).
    exists added. repeat split; [exact Hget | exact Hcc | lia]. }
  split; [intros all counter k p; simpl; discriminate|].
  split; [exact Hadd|].
  split.
  { intros st id Hi k p. simpl.
    intros H. apply Collection.get_delete_some in H. now apply Hi in H. }
  split.
  { intros st updated old Hold Hcc Hi k p. simpl.
    destruct (String.eqb_spec k (promptId updated)) as [->|Hk].
    - rewrite Collection.get_set_same. intros [= <-]. rewrite Hcc. now apply Hi in Hold.
    - rewrite Collection.get_set_other by assumption. apply Hi. }
  intros st dom removed Hget Hlt Hne Hin st1 st2.
  destruct (Hadds st1 dom Hne) as (added & Hadded & Hcc & Hnext).
  { subst st1. simpl. unfold JSMap.has. now rewrite Collection.get_delete_same. }
  { exact Hin. }
  fold st2 in Hadded, Hnext.
  assert (Hsame : PromptDjMidi.nextCC st1 = PromptDjMidi.nextCC st) by reflexivity.
  exists added. rewrite Hsame in Hcc, Hnext.
  split; [exact Hadded|]. split; [exact Hcc|]. split; [lia|].
  split; [intros k other _ Hother; lia | exact Hnext].
Qed.

Lemma readded_prompt_gets_greater_cc_witness :
  exists added,
    JSMap.get
      (PromptDjMidi.prompts
         (fst (PromptDjMidi.handleAddPrompt
                 (fst (PromptDjMidi.handlePromptRemoved
                         (fst (PromptDjMidi.handleAddPrompt Scenario.seeded
                                 (Scenario.dom "Drums")))
                         "Drums"))
                 (Scenario.dom "Drums"))))
      "Drums"
    = Some added
    /\ cc added = 1.
Proof.
  destruct readded_prompt_gets_greater_cc as (_ & _ & _ & _ & _ & _ & _ & _ & Hmain).
  destruct (Hmain (fst (PromptDjMidi.handleAddPrompt Scenario.seeded (Scenario.dom "Drums")))
              (Scenario.dom "Drums")
              {| promptId := "Drums"; text := "Drums"; weight := JS.ofZ 0; cc := 0;
                 color := "#5200ff";
                 x := Some (JS.div (JS.ofZ 1000) (JS.ofZ 2));
                 y := Some (JS.div (JS.ofZ 1000) (JS.ofZ 2)) |})
    as (added & Hget & Hcc & _).
  - reflexivity.
  - reflexivity.
  - discriminate.
  - simpl. tauto.
  - exists added. split; [exact Hget | exact Hcc].
Defined.

(** ** The background *)

Module Background.

Import JS NumberOrder PromptDjMidi.

(** A number above zero is not zero. *)
Lemma gt_zero_not_zero (w : number) :
  gt w (ofZ 0) = true -> strictEq w (ofZ 0) = false.
Proof.
  unfold gt, strictEq, lt, SFltb, SFeqb. rewrite (compare_antisym (ofZ 0) w).
  destruct (SFcompare (ofZ 0) w) as [[| |]|]; simpl; easy.
Qed.

Lemma activePrompts_withoutSilent (m : JSMap.t Prompt) :
  activePrompts (withoutSilent m) = activePrompts m.
Proof.
  unfold activePrompts, withoutSilent, JSMap.values.
  induction m as [|[k p] m IH]; [reflexivity|]. cbn [filter map snd].
  destruct (gt (weight p) (ofZ 0)) eqn:E.
  - rewrite (gt_zero_not_zero _ E). cbn [negb map snd filter].
    rewrite E. now f_equal.
  - destruct (negb _); cbn [map snd filter]; rewrite ?E; exact IH.
Qed.

Lemma gradients_alpha (random : nat -> number) (active : list Prompt) (n : nat) :
  map gradient_alpha (gradients random n active) = map alpha active.
Proof.
  revert n. induction active as [|p active IH]; intros n; simpl; [reflexivity|].
  now rewrite IH.
Qed.

(** At and above 1 the weight enters the alpha as 1. *)
Lemma Math_min_saturates (w : number) :
  le (ofZ 1) w = true -> Math_min w (ofZ 1) = ofZ 1.
Proof.
  destruct w as [s|[|]| |[|] m e]; try discriminate; try reflexivity.
  unfold le, SFleb. intros H.
  change (Math_min (S754_finite false m e) (ofZ 1))
    with (if lt (ofZ 1) (S754_finite false m e) then ofZ 1 else S754_finite false m e).
  unfold lt, SFltb.
  destruct (SFcompare (ofZ 1) (S754_finite false m e)) as [[| |]|] eqn:E;
    try discriminate; try reflexivity.
  change (ofZ 1) with (S754_finite false 4503599627370496 (-52)) in E |- *.
  cbn [SFcompare] in E.
  change (Pos.compare_cont Eq 4503599627370496 m)
    with (Pos.compare 4503599627370496 m) in E.
  destruct (Z.compare_spec (-52) e); try discriminate.
  destruct (Pos.compare_spec 4503599627370496 m); try discriminate.
  now subst.
Qed.

(** The active prompts are the prompts of the collection whose weight is
    above zero. *)
Lemma activePrompts_In (m : JSMap.t Prompt) (p : Prompt) :
  In p (activePrompts m) <-> In p (JSMap.values m) /\ gt (weight p) (ofZ 0) = true.
Proof.
  unfold activePrompts. apply filter_In.
Qed.

Lemma gradients_color_alpha (random : nat -> number) (active : list Prompt) (n : nat) :
  map (fun g => (gradient_color g, gradient_alpha g)) (gradients random n active)
  = map (fun p => (color p, alpha p)) active.
Proof.
  revert n. induction active as [|p active IH]; intros n; simpl; [reflexivity|].
  now rewrite IH.
Qed.

(** The alpha of the weights 0, 0.01, ..., 2 is the exactly rounded
    [102 * min(weight, 1)], in two hexadecimal digits. *)
Lemma alpha_hundredths (p : Prompt) (k : Z) :
  0 <= k <= 200 ->
  alpha (with_weight p (lit k 100))
  = padStart 2 "0"%char
      (toString16 (IntZ ((2 * (102 * Z.min k 100) + 100) / 200))).
Proof.
  intros Hk. unfold alpha. cbn [weight with_weight].
  apply (Intensity.forall_range
           (fun k =>
              padStart 2 "0"%char
                (toString16
                   (Math_round_integral
                      (mul (mul (Math_min (lit k 100) (ofZ 1)) (lit 4 10)) (ofZ 255))))
              = padStart 2 "0"%char
                  (toString16 (IntZ ((2 * (102 * Z.min k 100) + 100) / 200))))
           (fun k =>
              String.eqb
                (padStart 2 "0"%char
                   (toString16
                      (Math_round_integral
                         (mul (mul (Math_min (lit k 100) (ofZ 1)) (lit 4 10)) (ofZ 255)))))
                (padStart 2 "0"%char
                   (toString16 (IntZ ((2 * (102 * Z.min k 100) + 100) / 200)))))
           0 201).
  - intros v. apply String.eqb_eq.
  - vm_compute. reflexivity.
  - lia.
Qed.

End Background.

(** C8.  The background is that of the collection without its prompts of
    weight zero, whatever their colours and positions.  A prompt of the
    collection is among the active ones exactly when its weight is above
    zero, so a prompt of weight zero never is; the gradients are those of
    the active prompts, one each and in their order, with the prompt's
    colour and alpha, so every prompt of weight above zero gets a gradient.
    The alpha depends on the weight through [Math.min(weight, 1)] only; for
    the weights 0, 0.01, 0.02, ..., 2 it is the two hexadecimal digits of
    [102 * min(weight, 1)] rounded to the nearest integer, 102 being
    [0.4 * 255].  It is [66] for a prompt of weight 1 and for the same
    prompt with weight 2, and for every weight from 1 up. *)
Theorem background_skips_silent_and_alpha_saturates :
  (forall random m,
      PromptDjMidi.makeBackground random (PromptDjMidi.withoutSilent m)
      = PromptDjMidi.makeBackground random m)
  /\ (forall m p,
        (In p (PromptDjMidi.activePrompts m)
         <-> In p (JSMap.values m) /\ JS.gt (weight p) (JS.ofZ 0) = true)
        /\ (JS.strictEq (weight p) (JS.ofZ 0) = true ->
            ~ In p (PromptDjMidi.activePrompts m)))
  /\ (forall random m,
        List.length (PromptDjMidi.makeBackground random m)
        = List.length (PromptDjMidi.activePrompts m)
        /\ map (fun g => (PromptDjMidi.gradient_color g, PromptDjMidi.gradient_alpha g))
               (PromptDjMidi.makeBackground random m)
           = map (fun p => (color p, PromptDjMidi.alpha p))
                 (PromptDjMidi.activePrompts m)
        /\ map PromptDjMidi.gradient_alpha (PromptDjMidi.makeBackground random m)
           = map PromptDjMidi.alpha (PromptDjMidi.activePrompts m)
        /\ (forall p, In p (PromptDjMidi.activePrompts m) ->
                      JS.gt (weight p) (JS.ofZ 0) = true
                      /\ JS.strictEq (weight p) (JS.ofZ 0) = false))
  /\ (forall random m p,
        In p (JSMap.values m) ->
        JS.gt (weight p) (JS.ofZ 0) = true ->
        exists g,
          In g (PromptDjMidi.makeBackground random m)
          /\ PromptDjMidi.gradient_color g = color p
          /\ PromptDjMidi.gradient_alpha g = PromptDjMidi.alpha p)
  /\ (forall p q,
        JS.Math_min (weight p) (JS.ofZ 1) = JS.Math_min (weight q) (JS.ofZ 1) ->
        PromptDjMidi.alpha p = PromptDjMidi.alpha q)
  /\ (forall p k,
        0 <= k <= 200 ->
        PromptDjMidi.alpha (with_weight p (JS.lit k 100))
        = JS.padStart 2 "0"%char
            (JS.toString16 (JS.IntZ ((2 * (102 * Z.min k 100) + 100) / 200))))
  /\ (forall p,
        PromptDjMidi.alpha (with_weight p (JS.lit 4 10)) = "29"%string
        /\ PromptDjMidi.alpha (with_weight p (JS.lit 5 10)) = "33"%string
        /\ PromptDjMidi.alpha (with_weight p (JS.lit 8 10)) = "52"%string
        /\ PromptDjMidi.alpha (with_weight p (JS.ofZ 1)) = "66"%string
        /\ PromptDjMidi.alpha (with_weight p (JS.ofZ 2)) = "66"%string)
  /\ (forall p,
        JS.le (JS.ofZ 1) (weight p) = true ->
        PromptDjMidi.alpha p = PromptDjMidi.alpha (with_weight p (JS.ofZ 1))).
Proof.
  split.
  { intros random m. unfold PromptDjMidi.makeBackground.
    now rewrite Background.activePrompts_withoutSilent. }
  split.
  { intros m p. split; [apply Background.activePrompts_In|].
    intros Hz Hin. apply Background.activePrompts_In in Hin as [_ Hgt].
    apply Background.gt_zero_not_zero in Hgt. congruence. }
  split.
  { intros random m. unfold PromptDjMidi.makeBackground.
    pose proof (Background.gradients_alpha random (PromptDjMidi.activePrompts m) 0) as Ha.
    split; [|split; [|split]].
    - apply (f_equal (@List.length _)) in Ha. now rewrite !length_map in Ha.
    - apply Background.gradients_color_alpha.
    - exact Ha.
    - intros p Hp. apply Background.activePrompts_In in Hp as [_ Hp].
      split; [exact Hp|]. now apply Background.gt_zero_not_zero. }
  split.
  { intros random m p Hin Hgt.
    assert (Hact : In p (PromptDjMidi.activePrompts m))
      by (apply Background.activePrompts_In; now split).
    apply (in_map (fun p => (color p, PromptDjMidi.alpha p))) in Hact.
    unfold PromptDjMidi.makeBackground.
    rewrite <- (Background.gradients_color_alpha random _ 0) in Hact.
    apply in_map_iff in Hact as (g & Hg & Hin').
    exists g. injection Hg as Hc Ha. now repeat split. }
  split.
  { intros p q H. unfold PromptDjMidi.alpha. now rewrite H. }
  split; [exact Background.alpha_hundredths|].
  split.
  { intros p. repeat split; vm_compute; reflexivity. }
  intros p Hw. unfold PromptDjMidi.alpha. cbn [weight with_weight].
  now rewrite (Background.Math_min_saturates _ Hw).
Qed.

Lemma background_skips_silent_and_alpha_saturates_witness :
  (exists g,
      In g (PromptDjMidi.makeBackground (fun _ => JS.lit 5 10)
              [("Bass"%string, Scenario.bass);
               ("Drums"%string, with_weight Scenario.bass (JS.lit 8 10))])
      /\ PromptDjMidi.gradient_alpha g = "52"%string)
  /\ PromptDjMidi.alpha (with_weight Scenario.bass (JS.lit 16 10))
     = PromptDjMidi.alpha (with_weight (with_weight Scenario.bass (JS.lit 16 10)) (JS.ofZ 1))
  /\ PromptDjMidi.alpha (with_weight Scenario.bass (JS.lit 40 100)) = "29"%string.
Proof.
  destruct background_skips_silent_and_alpha_saturates
    as (_ & _ & _ & Hgets & _ & Hgrid & _ & Hsat).
  split; [|split].
  - destruct (Hgets (fun _ => JS.lit 5 10)
                [("Bass"%string, Scenario.bass);
                 ("Drums"%string, with_weight Scenario.bass (JS.lit 8 10))]
                (with_weight Scenario.bass (JS.lit 8 10)))
      as (g & Hin & _ & Ha).
    + simpl. tauto.
    + reflexivity.
    + exists g. split; [exact Hin|]. rewrite Ha. reflexivity.
  - apply Hsat. reflexivity.
  - rewrite (Hgrid Scenario.bass 40) by lia. reflexivity.
Defined.

(** * Further properties *)

(** ** More on the drag constraint *)

Module Clamp.

Import JS NumberOrder Order PromptController.

Lemma before_irrefl (a : number) : before a a = false.
Proof.
  destruct a as [[|]|[|]| |[|] m e]; try reflexivity;
    unfold before, lt, SFltb; cbn [SFcompare];
    rewrite Z.compare_refl; change (Pos.compare_cont Eq m m) with (Pos.compare m m);
    now rewrite Pos.compare_refl.
Qed.

Lemma before_trans (a b c : number) :
  before a b = true -> before b c = true -> before a c = true.
Proof.
  unfold before, lt, SFltb.
  by_cases_on a; by_cases_on b; by_cases_on c; intros; split_compare.
Qed.

(** Two numbers other than [NaN] are the same or one is before the
    other. *)
Lemma before_total (a b : number) :
  isNaN a = false -> isNaN b = false ->
  before a b = false -> before b a = false -> a = b.
Proof.
  unfold before, lt, SFltb.
  by_cases_on a; by_cases_on b; intros _ _; intros; split_compare;
    subst; try reflexivity.
Qed.

Lemma before_asym (a b : number) : before a b = true -> before b a = false.
Proof.
  intros H. destruct (before b a) eqn:E; [|reflexivity].
  pose proof (before_trans _ _ _ H E) as T. now rewrite before_irrefl in T.
Qed.

Lemma Math_max_before (a b : number) :
  isNaN a = false -> isNaN b = false ->
  Math_max a b = if before a b then b else a.
Proof.
  destruct a as [[|]|?| |? ? ?], b as [[|]|?| |? ? ?]; try discriminate; reflexivity.
Qed.

Lemma Math_min_before (a b : number) :
  isNaN a = false -> isNaN b = false ->
  Math_min a b = if before b a then b else a.
Proof.
  destruct a as [[|]|?| |? ? ?], b as [[|]|?| |? ? ?]; try discriminate; reflexivity.
Qed.

Lemma Math_max_idempotent_gen (h m v : number) :
  Math_max h (Math_min (Math_max h (Math_min v m)) m) = Math_max h (Math_min v m).
Proof.
  destruct (isNaN h) eqn:Hh; [destruct h; try discriminate; reflexivity|].
  destruct (isNaN m) eqn:Hm.
  { destruct m; try discriminate. destruct h, v; reflexivity. }
  destruct (isNaN v) eqn:Hv.
  { destruct v; try discriminate. destruct h, m; reflexivity. }
  assert (Hn : isNaN (Math_min v m) = false).
  { rewrite Math_min_before by assumption. now destruct (before m v). }
  assert (Hr : isNaN (Math_max h (Math_min v m)) = false).
  { rewrite Math_max_before by assumption. now destruct (before h _). }
  rewrite (Math_max_before h (Math_min (Math_max h (Math_min v m)) m)).
  2: assumption.
  2: { rewrite Math_min_before by assumption. now destruct (before m _). }
  rewrite (Math_min_before (Math_max h (Math_min v m)) m) by assumption.
  rewrite (Math_max_before h (Math_min v m)) by assumption.
  rewrite (Math_min_before v m) by assumption.
  destruct (before m v) eqn:Emv.
  - destruct (before h m) eqn:Ehm.
    + rewrite before_irrefl, Ehm. reflexivity.
    + destruct (before m h) eqn:Emh.
      * rewrite Ehm. reflexivity.
      * now rewrite before_irrefl.
  - destruct (before h v) eqn:Ehv.
    + rewrite Emv, Ehv. reflexivity.
    + destruct (before m h) eqn:Emh.
      * now rewrite (before_asym _ _ Emh).
      * now rewrite before_irrefl.
Qed.

Lemma Math_min_le_l (a b : number) :
  isNaN a = false -> isNaN b = false -> le (Math_min a b) a = true.
Proof.
  intros Ha Hb. destruct (Math_min_cases a b Ha Hb) as [[-> _]|[-> H]];
    [now apply le_refl | assumption].
Qed.

Lemma Math_max_le_l (a b : number) :
  isNaN a = false -> isNaN b = false -> le a (Math_max a b) = true.
Proof.
  intros Ha Hb. destruct (Math_max_cases a b Ha Hb) as [[-> _]|[-> H]];
    [now apply le_refl | assumption].
Qed.

Lemma Math_max_le_r (a b : number) :
  isNaN a = false -> isNaN b = false -> le b (Math_max a b) = true.
Proof.
  intros Ha Hb. destruct (Math_max_cases a b Ha Hb) as [[-> H]|[-> _]];
    [now apply not_lt_le | now apply le_refl].
Qed.

Lemma Math_max_not_nan (a b : number) :
  isNaN a = false -> isNaN b = false -> isNaN (Math_max a b) = false.
Proof.
  intros Ha Hb. destruct (Math_max_cases a b Ha Hb) as [[-> _]|[-> _]]; assumption.
Qed.

Lemma le_antisym (a b : number) :
  le a b = true -> le b a = true -> strictEq a b = true.
Proof.
  unfold le, strictEq, SFleb, SFeqb. rewrite (compare_antisym a b).
  destruct (SFcompare a b) as [[| |]|]; simpl; easy.
Qed.


(** The constraint keeps the order of the positions asked for. *)
Lemma constrain_monotone (v1 v2 half extent : number) :
  isNaN half = false -> isNaN (sub extent half) = false ->
  le v1 v2 = true ->
  le (constrain v1 half extent) (constrain v2 half extent) = true.
Proof.
  intros Hh Hm Hv. unfold constrain.
  destruct (le_not_nan _ _ Hv) as [H1 H2].
  pose proof (Constraint.Math_min_not_nan _ _ H1 Hm) as Hn1.
  pose proof (Constraint.Math_min_not_nan _ _ H2 Hm) as Hn2.
  assert (Hmin : le (Math_min v1 (sub extent half)) (Math_min v2 (sub extent half)) = true).
  { destruct (Math_min_cases v2 _ H2 Hm) as [[-> _]|[-> _]].
    - apply le_trans with v1; [now apply Math_min_le_l | assumption].
    - now apply Constraint.Math_min_le_r. }
  destruct (Math_max_cases half _ Hh Hn1) as [[-> _]|[-> _]].
  - now apply Math_max_le_l.
  - apply le_trans with (Math_min v2 (sub extent half)); [assumption|].
    now apply Math_max_le_r.
Qed.

(** A position between the bounds is left where it is. *)
Lemma constrain_inside (v half extent : number) :
  le half v = true -> le v (sub extent half) = true ->
  strictEq (constrain v half extent) v = true.
Proof.
  intros Hlo Hhi. unfold constrain.
  destruct (le_not_nan _ _ Hlo) as [Hh Hv].
  destruct (le_not_nan _ _ Hhi) as [_ Hm].
  pose proof (Constraint.Math_min_not_nan _ _ Hv Hm) as Hn.
  apply le_antisym.
  - destruct (Math_max_cases half _ Hh Hn) as [[-> _]|[-> _]];
      [assumption | now apply Math_min_le_l].
  - apply le_trans with (Math_min v (sub extent half)); [|now apply Math_max_le_r].
    destruct (Math_min_cases v _ Hv Hm) as [[-> _]|[-> _]];
      [now apply le_refl | assumption].
Qed.

End Clamp.

(** X1.  Constraining a position a second time changes nothing, whatever
    the numbers are; so the position a pointer move leaves the prompt at
    is one the constraint leaves alone. *)
Theorem constrain_idempotent :
  (forall v half extent,
      PromptController.constrain (PromptController.constrain v half extent) half extent
      = PromptController.constrain v half extent)
  /\ (forall st lay e parentWidth parentHeight,
        PromptController.isDragging st = true ->
        PromptController.parentElement lay = Some (parentWidth, parentHeight) ->
        exists newX newY,
          x (PromptController.prompt (fst (PromptController.handlePointerMove st lay e)))
          = Some newX
          /\ y (PromptController.prompt (fst (PromptController.handlePointerMove st lay e)))
             = Some newY
          /\ PromptController.constrain newX
               (JS.div (PromptController.offsetWidth lay) (JS.ofZ 2)) parentWidth = newX
          /\ PromptController.constrain newY
               (JS.div (PromptController.offsetHeight lay) (JS.ofZ 2)) parentHeight = newY).
Proof.
  assert (Hidem : forall v half extent,
             PromptController.constrain (PromptController.constrain v half extent) half extent
             = PromptController.constrain v half extent).
  { intros v half extent. apply Clamp.Math_max_idempotent_gen. }
  split; [exact Hidem|].
  intros st lay e parentWidth parentHeight Hdrag Hparent.
  unfold PromptController.handlePointerMove. rewrite Hdrag, Hparent. cbn [negb fst].
  cbn [PromptController.prompt PromptController.set_prompt with_position x y].
  do 2 eexists. split; [reflexivity|]. split; [reflexivity|]. split; apply Hidem.
Qed.

Lemma constrain_idempotent_witness :
  exists newX newY,
    x (PromptController.prompt
         (fst (PromptController.handlePointerMove Scenario.grabbed
                 (PromptController.pixelLayout 100 100 1000 1000)
                 (Scenario.pointer 5000 20))))
    = Some newX
    /\ y (PromptController.prompt
            (fst (PromptController.handlePointerMove Scenario.grabbed
                    (PromptController.pixelLayout 100 100 1000 1000)
                    (Scenario.pointer 5000 20))))
       = Some newY
    /\ PromptController.constrain newX (JS.div (JS.ofZ 100) (JS.ofZ 2)) (JS.ofZ 1000) = newX
    /\ PromptController.constrain newY (JS.div (JS.ofZ 100) (JS.ofZ 2)) (JS.ofZ 1000) = newY.
Proof.
  apply (proj2 constrain_idempotent Scenario.grabbed
               (PromptController.pixelLayout 100 100 1000 1000)
               (Scenario.pointer 5000 20) (JS.ofZ 1000) (JS.ofZ 1000));
    reflexivity.
Defined.

(** X2.  The constraint keeps the order of positions: of two positions
    asked for, the one that is not the larger is not put at the larger
    place. *)
Theorem constrain_keeps_order (v1 v2 half extent : JS.number) :
  JS.isNaN half = false -> JS.isNaN (JS.sub extent half) = false ->
  JS.le v1 v2 = true ->
  JS.le (PromptController.constrain v1 half extent)
        (PromptController.constrain v2 half extent) = true.
Proof.
  apply Clamp.constrain_monotone.
Qed.

Lemma constrain_keeps_order_witness :
  JS.le (PromptController.constrain (JS.ofZ 30) (JS.ofZ 50) (JS.ofZ 1000))
        (PromptController.constrain (JS.ofZ 700) (JS.ofZ 50) (JS.ofZ 1000)) = true.
Proof.
  apply (constrain_keeps_order (JS.ofZ 30) (JS.ofZ 700) (JS.ofZ 50) (JS.ofZ 1000));
    reflexivity.
Defined.

(** X3.  A position asked for that lies between the bounds is not moved:
    the constraint returns a number [===] to it. *)
Theorem constrain_leaves_inside (v half extent : JS.number) :
  JS.le half v = true -> JS.le v (JS.sub extent half) = true ->
  JS.strictEq (PromptController.constrain v half extent) v = true.
Proof.
  apply Clamp.constrain_inside.
Qed.

Lemma constrain_leaves_inside_witness :
  JS.strictEq (PromptController.constrain (JS.lit 7301 10) (JS.ofZ 50) (JS.ofZ 1000))
              (JS.lit 7301 10) = true.
Proof.
  apply (constrain_leaves_inside (JS.lit 7301 10) (JS.ofZ 50) (JS.ofZ 1000));
    reflexivity.
Defined.

(** ** More on the drag session *)

Module DragMore.

Import PromptController Session.

Lemma run_cons (st : State) (i : Input) (rest : list Input) :
  run st (i :: rest)
  = (fst (run (fst (deliver st i)) rest),
     snd (deliver st i) ++ snd (run (fst (deliver st i)) rest)).
Proof.
  cbn [run]. destruct (deliver st i) as [st1 out1]. cbn [fst snd].
  now destruct (run st1 rest).
Qed.

(** With no drag under way a stray input changes nothing. *)
Lemma stray_ignored (st : State) (i : Input) :
  isDragging st = false -> stray i = true -> deliver st i = (st, []).
Proof.
  intros Hidle Hs. destruct i as [e|lay e| |]; simpl in *.
  - unfold handlePointerDown. rewrite Hs. now destruct (hostPointerDown st).
  - unfold handlePointerMove. rewrite Hidle. now destruct (windowPointerMove st).
  - unfold handlePointerUp. rewrite Hidle. now destruct (windowPointerUp st).
  - discriminate.
Qed.

Lemma strays_ignored (later : list Input) (st : State) :
  isDragging st = false -> forallb stray later = true -> run st later = (st, []).
Proof.
  intros Hidle. induction later as [|i later IH]; [reflexivity|].
  cbn [forallb]. intros H. apply andb_prop in H as [Hi Hl].
  rewrite run_cons, (stray_ignored st i Hidle Hi). cbn [fst snd app].
  now rewrite (IH Hl).
Qed.

Lemma sameButPosition_refl (p : Prompt) : sameButPosition p p.
Proof. now repeat split. Qed.

(** The pointer moves of a drag change the position of the prompt and
    nothing else of it. *)
Lemma moves_keep_prompt (p0 : Prompt) (down : PointerEvent)
    (samples : list (Layout * PointerEvent)) (st : State) :
  dragging p0 down st ->
  sameButPosition (prompt st) (prompt (fst (run st (pointerMoves samples))))
  /\ (samples = [] -> fst (run st (pointerMoves samples)) = st).
Proof.
  revert st. induction samples as [|[lay e] samples IH]; intros st Hd.
  - split; [apply sameButPosition_refl | reflexivity].
  - split; [|discriminate].
    change (pointerMoves ((lay, e) :: samples))
      with (PointerMove lay e :: pointerMoves samples).
    rewrite run_cons. cbn [fst].
    destruct (Drag.pointer_move_drags p0 down st lay e Hd) as [E Hd'].
    destruct (IH _ Hd') as [(H1 & H2 & H3 & H4 & H5) _].
    rewrite E in H1, H2, H3, H4, H5. rewrite E. cbn [fst] in *.
    repeat split; assumption.
Qed.

(** What a whole drag comes to: the state when the pointer goes up, and
    the one event dispatched. *)
Lemma session (st : State) (down : PointerEvent)
    (samples : list (Layout * PointerEvent)) :
  hostPointerDown st = true -> onControl down = false ->
  exists final,
    run st (PointerDown down :: pointerMoves samples ++ [PointerUp])
    = (final, [PromptChanged (prompt final)])
    /\ (isDragging final = false /\ windowPointerMove final = false
        /\ windowPointerUp final = false)
    /\ sameButPosition (prompt st) (prompt final)
    /\ (samples = [] -> prompt final = prompt st).
Proof.
  intros Hhost Hctl.
  destruct (Drag.pointer_down_starts st down Hhost Hctl) as [Edown Hd0].
  set (st0 := fst (deliver st (PointerDown down))) in *.
  destruct (Drag.pointer_moves_drag _ down samples _ Hd0) as [Hquiet Hd].
  destruct (moves_keep_prompt _ down samples _ Hd0) as [Hsame Hnone].
  set (st1 := fst (run st0 (pointerMoves samples))) in *.
  assert (Hp0 : prompt st0 = prompt st).
  { subst st0. simpl. rewrite Hhost. unfold handlePointerDown. now rewrite Hctl. }
  exists (fst (handlePointerUp st1)).
  rewrite run_cons, Edown. fold st0. cbn [fst snd app].
  rewrite Drag.run_app. fold st1. rewrite Hquiet. cbn [app].
  rewrite run_cons. cbn [run fst snd].
  assert (Eup : deliver st1 PointerUp = handlePointerUp st1).
  { simpl. now rewrite (drag_up _ _ _ Hd). }
  rewrite Eup. unfold handlePointerUp. rewrite (drag_active _ _ _ Hd).
  cbn [negb fst snd app prompt isDragging dispatchPromptChange].
  rewrite <- Hp0.
  split; [reflexivity|]. split; [now repeat split|]. split; [exact Hsame|].
  intros ->. subst st1. reflexivity.
Qed.

End DragMore.

(** X4.  A controller with no drag under way ignores pointer moves, pointer
    ups and pointer-downs on its remove button or on a dot: whatever the
    sequence of them, its state is the same and nothing is dispatched. *)
Theorem idle_controller_ignores_stray_input
    (st : PromptController.State) (inputs : list PromptController.Input) :
  PromptController.isDragging st = false ->
  forallb Session.stray inputs = true ->
  PromptController.run st inputs = (st, []).
Proof.
  intros Hidle Hs. now apply DragMore.strays_ignored.
Qed.

Lemma idle_controller_ignores_stray_input_witness :
  PromptController.run (Scenario.idle Scenario.bass)
    [PromptController.PointerDown
       {| PromptController.clientX := JS.ofZ 500;
          PromptController.clientY := JS.ofZ 500;
          PromptController.onControl := true |};
     PromptController.PointerMove (PromptController.pixelLayout 100 100 1000 1000)
       (Scenario.pointer 700 700);
     PromptController.PointerUp]
  = (Scenario.idle Scenario.bass, []).
Proof.
  apply idle_controller_ignores_stray_input; reflexivity.
Defined.

(** X5.  A drag changes the position of the prompt and nothing else: the
    prompt in the one [prompt-changed] of a drag has the identifier, text,
    weight, [cc] and colour the prompt had at pointer-down.  A press and
    release with no move in between dispatches the prompt as it was. *)
Theorem drag_changes_position_only
    (st : PromptController.State) (down : PromptController.PointerEvent)
    (samples : list (PromptController.Layout * PromptController.PointerEvent)) :
  PromptController.hostPointerDown st = true ->
  PromptController.onControl down = false ->
  exists changed,
    snd (PromptController.run st
           (PromptController.PointerDown down
              :: PromptController.pointerMoves samples ++ [PromptController.PointerUp]))
    = [PromptController.PromptChanged changed]
    /\ Session.sameButPosition (PromptController.prompt st) changed
    /\ (samples = [] -> changed = PromptController.prompt st).
Proof.
  intros Hhost Hctl.
  destruct (DragMore.session st down samples Hhost Hctl) as (final & E & _ & Hs & Hn).
  exists (PromptController.prompt final). rewrite E.
  split; [reflexivity | split; assumption].
Qed.

Lemma drag_changes_position_only_witness :
  exists changed,
    snd (PromptController.run (Scenario.idle Scenario.bass)
           (PromptController.PointerDown (Scenario.pointer 500 500)
              :: PromptController.pointerMoves [] ++ [PromptController.PointerUp]))
    = [PromptController.PromptChanged changed]
    /\ Session.sameButPosition Scenario.bass changed
    /\ (@nil (PromptController.Layout * PromptController.PointerEvent) = [] ->
        changed = Scenario.bass).
Proof.
  apply (drag_changes_position_only (Scenario.idle Scenario.bass)
           (Scenario.pointer 500 500) []); reflexivity.
Defined.

(** X6.  After the pointer-up of a drag the controller is at rest again:
    pointer moves and pointer ups that still arrive, and pointer-downs on
    the controls, dispatch nothing, so the drag has dispatched exactly one
    [prompt-changed] in all, and they leave the prompt as dispatched. *)
Theorem one_notification_per_drag
    (st : PromptController.State) (down : PromptController.PointerEvent)
    (samples : list (PromptController.Layout * PromptController.PointerEvent))
    (later : list PromptController.Input) :
  PromptController.hostPointerDown st = true ->
  PromptController.onControl down = false ->
  forallb Session.stray later = true ->
  exists final,
    PromptController.run st
      (PromptController.PointerDown down
         :: (PromptController.pointerMoves samples ++ [PromptController.PointerUp])
         ++ later)
    = (final, [PromptController.PromptChanged (PromptController.prompt final)])
    /\ PromptController.isDragging final = false
    /\ PromptController.windowPointerMove final = false
    /\ PromptController.windowPointerUp final = false.
Proof.
  intros Hhost Hctl Hlater.
  destruct (DragMore.session st down samples Hhost Hctl)
    as (final & E & (Hidle & Hmove & Hup) & _ & _).
  exists final.
  change (PromptController.PointerDown down
            :: (PromptController.pointerMoves samples ++ [PromptController.PointerUp])
            ++ later)
    with ((PromptController.PointerDown down
             :: PromptController.pointerMoves samples ++ [PromptController.PointerUp])
            ++ later).
  rewrite Drag.run_app, E. cbn [fst snd].
  rewrite (DragMore.strays_ignored later final Hidle Hlater). cbn [fst snd].
  rewrite app_nil_r. now repeat split.
Qed.

Lemma one_notification_per_drag_witness :
  exists final,
    PromptController.run (Scenario.idle Scenario.bass)
      (PromptController.PointerDown (Scenario.pointer 500 500)
         :: (PromptController.pointerMoves
               [(PromptController.pixelLayout 100 100 1000 1000, Scenario.pointer 700 650)]
             ++ [PromptController.PointerUp])
         ++ [PromptController.PointerMove (PromptController.pixelLayout 100 100 1000 1000)
               (Scenario.pointer 10 10);
             PromptController.PointerUp])
    = (final, [PromptController.PromptChanged (PromptController.prompt final)])
    /\ PromptController.isDragging final = false
    /\ PromptController.windowPointerMove final = false
    /\ PromptController.windowPointerUp final = false.
Proof.
  apply (one_notification_per_drag (Scenario.idle Scenario.bass)
           (Scenario.pointer 500 500)
           [(PromptController.pixelLayout 100 100 1000 1000, Scenario.pointer 700 650)]);
    reflexivity.
Defined.

Module Still.

Import JS NumberOrder Order PromptController.






End Still.



(** ** More on levels *)

Module LevelMore.

Import JS.

(** The level getter after [updateLevel] at a level from 0 to 5. *)
Lemma level_after_update (st : PromptController.State) (l : Z) :
  0 <= l <= 5 ->
  PromptController.level (fst (PromptController.updateLevel st (ofZ l))) = ofZ l.
Proof.
  intros Hl. unfold PromptController.level, PromptController.updateLevel.
  cbn [fst PromptController.prompt PromptController.set_prompt weight with_weight].
  assert (H : l = 0 \/ l = 1 \/ l = 2 \/ l = 3 \/ l = 4 \/ l = 5) by lia.
  destruct H as [->|[->|[->|[->|[->| ->]]]]]; vm_compute; reflexivity.
Qed.

Lemma update_keeps_rest (st : PromptController.State) (l : number) :
  Session.sameButWeight (PromptController.prompt st)
    (PromptController.prompt (fst (PromptController.updateLevel st l))).
Proof. now repeat split. Qed.

End LevelMore.

(** X8.  A click on dot [i] of the selector a controller renders sets the
    controller's level to [i], or to 0 when [i] was the level: the click
    dispatches one [level-changed], and the controller that handles it
    then reports that level, has changed nothing of its prompt but the
    weight, and has dispatched one [prompt-changed] with the prompt. *)
Theorem dot_click_sets_level (st : PromptController.State) (k i : Z) :
  0 <= k <= 5 -> 1 <= i <= 5 ->
  PromptController.level st = JS.ofZ k ->
  exists e,
    LevelSelector.click (LevelSelector.dot (PromptController.render st) i) = [e]
    /\ PromptController.level (fst (PromptController.onLevelChanged st e))
       = JS.ofZ (if k =? i then 0 else i)
    /\ Session.sameButWeight (PromptController.prompt st)
         (PromptController.prompt (fst (PromptController.onLevelChanged st e)))
    /\ snd (PromptController.onLevelChanged st e)
       = [PromptController.PromptChanged
            (PromptController.prompt (fst (PromptController.onLevelChanged st e)))].
Proof.
  intros Hk Hi Hlevel.
  unfold LevelSelector.dot, LevelSelector.selectLevel, PromptController.render.
  cbn [LevelSelector.click LevelSelector.level]. rewrite Hlevel.
  rewrite Exact.strictEq_integers by (change (2 ^ 53) with 9007199254740992; lia).
  eexists. split; [reflexivity|]. cbn [PromptController.onLevelChanged].
  split; [|split; [apply LevelMore.update_keeps_rest | reflexivity]].
  destruct (k =? i); apply LevelMore.level_after_update; lia.
Qed.

Lemma dot_click_sets_level_witness :
  exists e,
    LevelSelector.click
      (LevelSelector.dot (PromptController.render Scenario.filtered_loud) 3) = [e]
    /\ PromptController.level (fst (PromptController.onLevelChanged Scenario.filtered_loud e))
       = JS.ofZ 0.
Proof.
  destruct (dot_click_sets_level Scenario.filtered_loud 3 3) as (e & H1 & H2 & _);
    [lia | lia | vm_compute; reflexivity |].
  exists e. split; [exact H1 | exact H2].
Defined.

(** X9.  At the levels 0 to 5 [updateLevel] stores the weights 0, 0.4,
    0.8, 1.2, 1.6 and 2: the weight lies between 0 and 2, grows with the
    level, and the rest of the prompt is untouched. *)
Theorem level_to_weight_range (st : PromptController.State) (l : Z) :
  0 <= l <= 5 ->
  let p := PromptController.prompt (fst (PromptController.updateLevel st (JS.ofZ l))) in
  weight p = JS.lit (4 * l) 10
  /\ JS.le (JS.ofZ 0) (weight p) = true
  /\ JS.le (weight p) (JS.ofZ 2) = true
  /\ (l < 5 ->
      JS.lt (weight p)
            (weight (PromptController.prompt
                       (fst (PromptController.updateLevel st (JS.ofZ (l + 1)))))) = true)
  /\ Session.sameButWeight (PromptController.prompt st) p.
Proof.
  intros Hl p. subst p.
  cbn [fst PromptController.updateLevel PromptController.prompt
       PromptController.set_prompt weight with_weight].
  assert (H : l = 0 \/ l = 1 \/ l = 2 \/ l = 3 \/ l = 4 \/ l = 5) by lia.
  split; [|split; [|split; [|split]]].
  - destruct H as [->|[->|[->|[->|[->| ->]]]]]; vm_compute; reflexivity.
  - destruct H as [->|[->|[->|[->|[->| ->]]]]]; vm_compute; reflexivity.
  - destruct H as [->|[->|[->|[->|[->| ->]]]]]; vm_compute; reflexivity.
  - intros Hlt.
    destruct H as [->|[->|[->|[->|[->| ->]]]]]; try lia; vm_compute; reflexivity.
  - now repeat split.
Qed.

Lemma level_to_weight_range_witness :
  weight (PromptController.prompt
            (fst (PromptController.updateLevel (Scenario.idle Scenario.bass) (JS.ofZ 4))))
  = JS.lit 16 10.
Proof.
  apply (level_to_weight_range (Scenario.idle Scenario.bass) 4). lia.
Defined.

Module Midi.

Import JS.

(** On MIDI values the rounding in numbers is the rounding of the exact
    quotient. *)
Lemma ccToLevel_exact (value : Z) :
  0 <= value <= 127 ->
  PromptController.ccToLevel value = ofZ ((10 * value + 127) / 254).
Proof.
  intros Hv.
  apply (Intensity.forall_range
           (fun v => PromptController.ccToLevel v = ofZ ((10 * v + 127) / 254))
           (fun v => Object_is (PromptController.ccToLevel v) (ofZ ((10 * v + 127) / 254)))
           0 128).
  - intros v. apply Intensity.Object_is_eq.
  - vm_compute. reflexivity.
  - lia.
Qed.

Lemma levels_ordered (k1 k2 : Z) :
  0 <= k1 <= k2 -> k2 <= 5 -> le (ofZ k1) (ofZ k2) = true.
Proof.
  intros H1 H2.
  assert (A : k1 = 0 \/ k1 = 1 \/ k1 = 2 \/ k1 = 3 \/ k1 = 4 \/ k1 = 5) by lia.
  assert (B : k2 = 0 \/ k2 = 1 \/ k2 = 2 \/ k2 = 3 \/ k2 = 4 \/ k2 = 5) by lia.
  destruct A as [->|[->|[->|[->|[->| ->]]]]];
    destruct B as [->|[->|[->|[->|[->| ->]]]]]; try lia; reflexivity.
Qed.

End Midi.

(** X10.  The level of a MIDI value is the exact quotient [5 * value / 127]
    rounded to the nearest integer, with no error from the arithmetic of
    numbers: [floor ((10 * value + 127) / 254)].  So a larger value never
    gives a smaller level, the values up to 12 give level 0 and those from
    115 give level 5. *)
Theorem ccToLevel_is_exact_rounding :
  (forall value, 0 <= value <= 127 ->
     PromptController.ccToLevel value = JS.ofZ ((10 * value + 127) / 254))
  /\ (forall v1 v2, 0 <= v1 <= v2 -> v2 <= 127 ->
        JS.le (PromptController.ccToLevel v1) (PromptController.ccToLevel v2) = true)
  /\ (forall value, 0 <= value <= 12 -> PromptController.ccToLevel value = JS.ofZ 0)
  /\ (forall value, 115 <= value <= 127 -> PromptController.ccToLevel value = JS.ofZ 5).
Proof.
  split; [exact Midi.ccToLevel_exact|].
  split; [|split].
  - intros v1 v2 H1 H2. rewrite !Midi.ccToLevel_exact by lia.
    apply Midi.levels_ordered.
    + split; [apply Z.div_pos; lia | apply Z.div_le_mono; lia].
    + assert ((10 * v2 + 127) / 254 < 6) by (apply Z.div_lt_upper_bound; lia). lia.
  - intros v Hv. rewrite Midi.ccToLevel_exact by lia. f_equal.
    apply Z.div_small. lia.
  - intros v Hv. rewrite Midi.ccToLevel_exact by lia. f_equal.
    symmetry. apply Z.div_unique with (10 * v + 127 - 5 * 254); lia.
Qed.

Lemma ccToLevel_is_exact_rounding_witness :
  PromptController.ccToLevel 64 = JS.ofZ 3
  /\ JS.le (PromptController.ccToLevel 38) (PromptController.ccToLevel 39) = true.
Proof.
  split.
  - rewrite (proj1 ccToLevel_is_exact_rounding 64) by lia. reflexivity.
  - apply (proj1 (proj2 ccToLevel_is_exact_rounding) 38 39); lia.
Defined.

(** X11.  A [cc-message] for another controller number leaves the
    controller as it is and dispatches nothing.  One for the prompt's own
    number, with a value from 0 to 127, changes the weight and nothing else
    of the prompt, dispatches one [prompt-changed] with the prompt, and the
    level the controller then reports is the value's level. *)
Theorem cc_message_sets_level (st : PromptController.State) (detail : ControlChange) :
  (cc_number detail <> cc (PromptController.prompt st) ->
   PromptController.onCCMessage st detail = (st, []))
  /\ (cc_number detail = cc (PromptController.prompt st) ->
      0 <= cc_value detail <= 127 ->
      let st' := fst (PromptController.onCCMessage st detail) in
      PromptController.level st' = PromptController.ccToLevel (cc_value detail)
      /\ PromptController.level st' = JS.ofZ ((10 * cc_value detail + 127) / 254)
      /\ Session.sameButWeight (PromptController.prompt st) (PromptController.prompt st')
      /\ snd (PromptController.onCCMessage st detail)
         = [PromptController.PromptChanged (PromptController.prompt st')]).
Proof.
  unfold PromptController.onCCMessage. split.
  - intros Hne. destruct (Z.eqb_spec (cc_number detail) (cc (PromptController.prompt st)));
      [contradiction | reflexivity].
  - intros Heq Hv. rewrite Heq, Z.eqb_refl. cbv zeta.
    rewrite Midi.ccToLevel_exact by assumption.
    assert (Hk : 0 <= (10 * cc_value detail + 127) / 254 <= 5).
    { split; [apply Z.div_pos; lia|].
      assert ((10 * cc_value detail + 127) / 254 < 6)
        by (apply Z.div_lt_upper_bound; lia). lia. }
    rewrite LevelMore.level_after_update by assumption.
    split; [reflexivity|]. split; [reflexivity|].
    split; [apply LevelMore.update_keeps_rest | reflexivity].
Qed.

Lemma cc_message_sets_level_witness :
  PromptController.onCCMessage (Scenario.idle Scenario.bass)
    {| cc_number := 9; cc_value := 100 |}
  = (Scenario.idle Scenario.bass, [])
  /\ PromptController.level
       (fst (PromptController.onCCMessage (Scenario.idle Scenario.bass)
               {| cc_number := 0; cc_value := 100 |}))
     = JS.ofZ 4.
Proof.
  split.
  - apply (proj1 (cc_message_sets_level (Scenario.idle Scenario.bass)
                    {| cc_number := 9; cc_value := 100 |})).
    discriminate.
  - destruct (proj2 (cc_message_sets_level (Scenario.idle Scenario.bass)
                       {| cc_number := 0; cc_value := 100 |}) eq_refl) as (_ & H & _).
    + simpl. lia.
    + rewrite H. reflexivity.
Defined.

(** X12.  The dots the selector shows as active are those up to the level:
    at a level [k] from 0 to 5, dot [i] is active exactly when [i <= k],
    so [k] of the five dots are active. *)
Theorem active_dots_count_level (p : LevelSelector.Props) (k : Z) :
  0 <= k <= 5 ->
  LevelSelector.level p = JS.ofZ k ->
  (forall i, 1 <= i <= 5 ->
     LevelSelector.active (LevelSelector.dot p i) = (i <=? k))
  /\ List.length (filter LevelSelector.active (snd (LevelSelector.render p)))
     = Z.to_nat k.
Proof.
  intros Hk Hlevel.
  assert (Hdot : forall i, 1 <= i <= 5 ->
             LevelSelector.active (LevelSelector.dot p i) = (i <=? k)).
  { intros i Hi. cbn [LevelSelector.active LevelSelector.dot]. rewrite Hlevel.
    assert (A : k = 0 \/ k = 1 \/ k = 2 \/ k = 3 \/ k = 4 \/ k = 5) by lia.
    assert (B : i = 1 \/ i = 2 \/ i = 3 \/ i = 4 \/ i = 5) by lia.
    destruct A as [->|[->|[->|[->|[->| ->]]]]];
      destruct B as [->|[->|[->|[-> | ->]]]]; reflexivity. }
  split; [exact Hdot|].
  cbn [LevelSelector.render snd map filter].
  rewrite !Hdot by lia.
  assert (A : k = 0 \/ k = 1 \/ k = 2 \/ k = 3 \/ k = 4 \/ k = 5) by lia.
  destruct A as [->|[->|[->|[->|[->| ->]]]]]; reflexivity.
Qed.

Lemma active_dots_count_level_witness :
  List.length
    (filter LevelSelector.active
       (snd (LevelSelector.render (PromptController.render Scenario.filtered_loud))))
  = 3%nat.
Proof.
  apply (proj2 (active_dots_count_level
                  (PromptController.render Scenario.filtered_loud) 3
                  ltac:(lia) ltac:(vm_compute; reflexivity))).
Defined.

(** ** More on the collection *)

Module MapFacts.

Lemma get_In {V : Type} (m : JSMap.t V) (k : string) (v : V) :
  JSMap.get m k = Some v -> In (k, v) m.
Proof.
  induction m as [|[k' v'] m IH]; simpl; [discriminate|].
  destruct (String.eqb_spec k' k) as [->|Hk].
  - intros [= ->]. now left.
  - intros H. right. auto.
Qed.

Lemma get_None_keys {V : Type} (m : JSMap.t V) (k : string) :
  JSMap.get m k = None <-> ~ In k (map fst m).
Proof.
  induction m as [|[k' v'] m IH]; simpl; [tauto|].
  destruct (String.eqb_spec k' k) as [->|Hk].
  - split; [discriminate | intros H; exfalso; apply H; now left].
  - rewrite IH. tauto.
Qed.

Lemma In_get {V : Type} (m : JSMap.t V) (k : string) (v : V) :
  NoDup (map fst m) -> In (k, v) m -> JSMap.get m k = Some v.
Proof.
  induction m as [|[k' v'] m IH]; simpl; [easy|].
  intros Hnd [[= -> ->]|Hin].
  - now rewrite String.eqb_refl.
  - inversion Hnd as [|? ? Hnot Hnd']; subst.
    destruct (String.eqb_spec k' k) as [->|Hk]; [|auto].
    exfalso. apply Hnot. now apply (in_map fst) in Hin.
Qed.

(** [set] on a key that is present keeps the keys and their order. *)
Lemma keys_set_present {V : Type} (m : JSMap.t V) (k : string) (v : V) :
  JSMap.has m k = true -> map fst (JSMap.set m k v) = map fst m.
Proof.
  unfold JSMap.has. induction m as [|[k' v'] m IH]; simpl; [discriminate|].
  destruct (String.eqb_spec k' k) as [->|Hk]; simpl; [reflexivity|].
  intros H. now rewrite IH.
Qed.

(** [set] on a key that is absent puts the entry last. *)
Lemma set_absent {V : Type} (m : JSMap.t V) (k : string) (v : V) :
  JSMap.has m k = false -> JSMap.set m k v = m ++ [(k, v)].
Proof.
  unfold JSMap.has. induction m as [|[k' v'] m IH]; simpl; [reflexivity|].
  destruct (String.eqb_spec k' k) as [->|Hk]; simpl; [discriminate|].
  intros H. now rewrite IH.
Qed.

Lemma In_set {V : Type} (m : JSMap.t V) (k k' : string) (v v' : V) :
  In (k', v') (JSMap.set m k v) -> (k' = k /\ v' = v) \/ In (k', v') m.
Proof.
  induction m as [|[k0 v0] m IH]; simpl.
  - intros [[= <- <-]|[]]. now left.
  - destruct (String.eqb_spec k0 k) as [->|Hk]; simpl.
    + intros [[= <- <-]|H]; [now left | right; now right].
    + intros [H|H]; [right; now left|]. destruct (IH H); [now left | right; now right].
Qed.

Lemma keys_set {V : Type} (m : JSMap.t V) (k : string) (v : V) :
  NoDup (map fst m) -> NoDup (map fst (JSMap.set m k v)).
Proof.
  intros Hnd. destruct (JSMap.has m k) eqn:E.
  - now rewrite keys_set_present.
  - rewrite set_absent, map_app by assumption. simpl.
    apply NoDup_app; [assumption | repeat constructor; easy|].
    intros a Ha [Hk|[]]. subst a. unfold JSMap.has in E.
    destruct (JSMap.get m k) eqn:G; [discriminate|].
    now apply get_None_keys in G.
Qed.

Lemma keys_delete {V : Type} (m : JSMap.t V) (k : string) :
  NoDup (map fst m) -> NoDup (map fst (JSMap.delete m k)).
Proof.
  unfold JSMap.delete. induction m as [|[k' v'] m IH]; simpl; [easy|].
  intros Hnd. inversion Hnd as [|? ? Hnot Hnd']; subst.
  destruct (negb (String.eqb k' k)); simpl; [|auto].
  constructor; [|auto]. intros Hin. apply Hnot.
  apply in_map_iff in Hin as [[k0 v0] [<- Hin]].
  apply filter_In in Hin as [Hin _]. now apply (in_map fst) in Hin.
Qed.

Lemma delete_absent {V : Type} (m : JSMap.t V) (k : string) :
  JSMap.get m k = None -> JSMap.delete m k = m.
Proof.
  unfold JSMap.delete. induction m as [|[k' v'] m IH]; simpl; [reflexivity|].
  destruct (String.eqb_spec k' k) as [->|Hk]; simpl; [discriminate|].
  intros H. now rewrite IH.
Qed.

Lemma get_delete_other {V : Type} (m : JSMap.t V) (k k' : string) :
  k' <> k -> JSMap.get (JSMap.delete m k) k' = JSMap.get m k'.
Proof.
  intros Hne. unfold JSMap.delete.
  induction m as [|[k0 v0] m IH]; simpl; [reflexivity|].
  destruct (String.eqb_spec k0 k) as [->|Hk]; simpl.
  - destruct (String.eqb_spec k k'); [congruence | assumption].
  - now rewrite IH.
Qed.

Lemma size_delete_present {V : Type} (m : JSMap.t V) (k : string) (v : V) :
  NoDup (map fst m) -> JSMap.get m k = Some v ->
  S (JSMap.size (JSMap.delete m k)) = JSMap.size m.
Proof.
  unfold JSMap.size, JSMap.delete.
  induction m as [|[k' v'] m IH]; simpl; [discriminate|].
  intros Hnd. inversion Hnd as [|? ? Hnot Hnd']; subst.
  destruct (String.eqb_spec k' k) as [->|Hk]; simpl.
  - intros _. f_equal.
    change (filter (fun kv => negb (String.eqb (fst kv) k)) m) with (JSMap.delete m k).
    rewrite delete_absent; [reflexivity|]. now apply get_None_keys.
  - intros H. f_equal. now apply IH.
Qed.

End MapFacts.

Module Invariants.

Import PromptDjMidi Built.

Lemma get_set {V : Type} (m : JSMap.t V) (k k' : string) (v : V) :
  JSMap.get (JSMap.set m k v) k' = if String.eqb k k' then Some v else JSMap.get m k'.
Proof.
  destruct (String.eqb_spec k k') as [<-|Hne].
  - apply Collection.get_set_same.
  - apply Collection.get_set_other. congruence.
Qed.

Lemma has_set_present {V : Type} (m : JSMap.t V) (k k' : string) (v : V) :
  JSMap.has m k = true -> JSMap.has (JSMap.set m k v) k' = JSMap.has m k'.
Proof.
  intros H. unfold JSMap.has in *. rewrite get_set.
  destruct (String.eqb_spec k k') as [<-|Hne]; [|reflexivity].
  now destruct (JSMap.get m k).
Qed.

(** What [handleAddPrompt] comes to: nothing, or a new last entry. *)
Lemma handleAddPrompt_cases (st : State) (dom : Dom) :
  handleAddPrompt st dom = (st, [])
  \/ exists d added,
       promptSelect_value dom <> EmptyString
       /\ JSMap.has (prompts st) (promptSelect_value dom) = false
       /\ find (fun p => String.eqb (default_text p) (promptSelect_value dom)) (allPrompts st)
          = Some d
       /\ added = {| promptId := promptSelect_value dom;
                     text := promptSelect_value dom;
                     weight := JS.ofZ 0;
                     cc := nextCC st;
                     color := default_color d;
                     x := Some (JS.div (soundscape_offsetWidth dom) (JS.ofZ 2));
                     y := Some (JS.div (soundscape_offsetHeight dom) (JS.ofZ 2)) |}
       /\ prompts (fst (handleAddPrompt st dom))
          = prompts st ++ [(promptSelect_value dom, added)]
       /\ nextCC (fst (handleAddPrompt st dom)) = nextCC st + 1
       /\ allPrompts (fst (handleAddPrompt st dom)) = allPrompts st
       /\ availablePrompts (fst (handleAddPrompt st dom))
          = getAvailablePrompts (fst (handleAddPrompt st dom))
       /\ snd (handleAddPrompt st dom)
          = [PromptsChanged (prompts (fst (handleAddPrompt st dom)))].
Proof.
  unfold handleAddPrompt.
  destruct (String.eqb_spec (promptSelect_value dom) EmptyString) as [E|E];
    [left; reflexivity|].
  destruct (JSMap.has (prompts st) (promptSelect_value dom)) eqn:Hhas;
    [left; reflexivity|].
  destruct (find _ (allPrompts st)) as [d|] eqn:Hfind; [|left; reflexivity].
  right. exists d. eexists. cbn [orb fst snd prompts nextCC allPrompts availablePrompts
                                  refresh_available dispatchPromptsChanged promptId].
  split; [assumption|]. split; [reflexivity|]. split; [reflexivity|].
  split; [reflexivity|]. split; [now apply MapFacts.set_absent|].
  now repeat split.
Qed.

Lemma added_invariants (st : State) (dom : Dom) :
  uniqueKeys (prompts st) /\ keyed (prompts st) /\ issued st
  /\ distinctCC (prompts st) /\ offersRest st ->
  let st' := fst (handleAddPrompt st dom) in
  uniqueKeys (prompts st') /\ keyed (prompts st') /\ issued st'
  /\ distinctCC (prompts st') /\ offersRest st'.
Proof.
  intros (Hu & Hk & Hi & Hd & Ho) st'. subst st'.
  destruct (handleAddPrompt_cases st dom)
    as [->|(d & added & Hne & Hhas & _ & Hadded & Hp & Hn & _ & Hav & _)];
    [now repeat split|].
  assert (Hp' : prompts (fst (handleAddPrompt st dom))
                = JSMap.set (prompts st) (promptSelect_value dom) added)
    by (now rewrite MapFacts.set_absent).
  assert (Hcc : cc added = nextCC st) by (now subst added).
  assert (Hid : promptId added = promptSelect_value dom) by (now subst added).
  split; [|split; [|split; [|split]]].
  - unfold uniqueKeys. rewrite Hp'. now apply MapFacts.keys_set.
  - intros k p Hin. rewrite Hp' in Hin.
    apply MapFacts.In_set in Hin as [[-> ->]|Hin]; [assumption | now apply Hk].
  - intros k p. rewrite Hn, Hp', get_set.
    destruct (String.eqb _ k); [intros [= <-]; lia | intros H; apply Hi in H; lia].
  - intros k1 k2 p1 p2. rewrite Hp', !get_set.
    destruct (String.eqb_spec (promptSelect_value dom) k1) as [<-|H1],
             (String.eqb_spec (promptSelect_value dom) k2) as [<-|H2]; try easy.
    + intros [= <-] G2 Hc. apply Hi in G2. lia.
    + intros G1 [= <-] Hc. apply Hi in G1. lia.
    + apply Hd.
  - exact Hav.
Qed.

Lemma removed_invariants (st : State) (id : string) :
  uniqueKeys (prompts st) /\ keyed (prompts st) /\ issued st
  /\ distinctCC (prompts st) /\ offersRest st ->
  let st' := fst (handlePromptRemoved st id) in
  uniqueKeys (prompts st') /\ keyed (prompts st') /\ issued st'
  /\ distinctCC (prompts st') /\ offersRest st'.
Proof.
  intros (Hu & Hk & Hi & Hd & Ho) st'. subst st'.
  cbn [fst handlePromptRemoved]. cbn [prompts refresh_available set_prompts].
  split; [|split; [|split; [|split]]].
  - now apply MapFacts.keys_delete.
  - intros k p Hin. apply filter_In in Hin as [Hin _]. now apply Hk.
  - intros k p H. cbn [prompts nextCC refresh_available set_prompts] in *.
    apply Collection.get_delete_some in H. exact (Hi k p H).
  - intros k1 k2 p1 p2 G1 G2. apply Collection.get_delete_some in G1, G2.
    exact (Hd k1 k2 p1 p2 G1 G2).
  - reflexivity.
Qed.

Lemma changed_invariants (st : State) (updated old : Prompt) :
  JSMap.get (prompts st) (promptId updated) = Some old ->
  cc updated = cc old ->
  uniqueKeys (prompts st) /\ keyed (prompts st) /\ issued st
  /\ distinctCC (prompts st) /\ offersRest st ->
  let st' := fst (handlePromptChanged st updated) in
  uniqueKeys (prompts st') /\ keyed (prompts st') /\ issued st'
  /\ distinctCC (prompts st') /\ offersRest st'.
Proof.
  intros Hold Hcc (Hu & Hk & Hi & Hd & Ho) st'. subst st'.
  cbn [fst handlePromptChanged]. cbn [prompts set_prompts].
  assert (Hhas : JSMap.has (prompts st) (promptId updated) = true)
    by (unfold JSMap.has; now rewrite Hold).
  split; [|split; [|split; [|split]]].
  - now apply MapFacts.keys_set.
  - intros k p Hin. apply MapFacts.In_set in Hin as [[-> ->]|Hin];
      [reflexivity | now apply Hk].
  - intros k p. cbn [prompts nextCC set_prompts]. rewrite get_set.
    destruct (String.eqb _ k); [intros [= <-]; rewrite Hcc; exact (Hi _ _ Hold) | apply Hi].
  - intros k1 k2 p1 p2. rewrite !get_set.
    destruct (String.eqb_spec (promptId updated) k1) as [<-|H1],
             (String.eqb_spec (promptId updated) k2) as [<-|H2]; try easy.
    + intros [= <-] G2 Hc. rewrite Hcc in Hc. apply (Hd _ _ _ _ Hold G2 Hc).
    + intros G1 [= <-] Hc. rewrite Hcc in Hc. apply (Hd _ _ _ _ G1 Hold Hc).
    + apply Hd.
  - unfold offersRest, getAvailablePrompts in *. cbn [prompts allPrompts availablePrompts set_prompts].
    rewrite Ho. apply filter_ext. intros p. now rewrite has_set_present.
Qed.

Lemma built_invariants (st : State) :
  built st ->
  uniqueKeys (prompts st) /\ keyed (prompts st) /\ issued st
  /\ distinctCC (prompts st) /\ offersRest st.
Proof.
  induction 1 as [all counter|st dom _ IH|st id _ IH|st updated old _ IH Hold Hcc].
  - split; [constructor|]. split; [intros k p []|].
    split; [intros k p H; discriminate|].
    split; [intros k1 k2 p1 p2 H; discriminate | reflexivity].
  - now apply added_invariants.
  - now apply removed_invariants.
  - now apply (changed_invariants st updated old).
Qed.

(** What [handlePromptChanged] comes to. *)
Lemma changed_facts (st : State) (updated : Prompt) :
  JSMap.get (prompts (fst (handlePromptChanged st updated))) (promptId updated)
  = Some updated
  /\ (forall k, k <> promptId updated ->
                JSMap.get (prompts (fst (handlePromptChanged st updated))) k
                = JSMap.get (prompts st) k)
  /\ (JSMap.has (prompts st) (promptId updated) = true ->
      map fst (prompts (fst (handlePromptChanged st updated))) = map fst (prompts st)
      /\ JSMap.size (prompts (fst (handlePromptChanged st updated)))
         = JSMap.size (prompts st))
  /\ (JSMap.has (prompts st) (promptId updated) = false ->
      prompts (fst (handlePromptChanged st updated))
      = prompts st ++ [(promptId updated, updated)])
  /\ nextCC (fst (handlePromptChanged st updated)) = nextCC st
  /\ availablePrompts (fst (handlePromptChanged st updated)) = availablePrompts st
  /\ snd (handlePromptChanged st updated)
     = [PromptsChanged (prompts (fst (handlePromptChanged st updated)))].
Proof.
  cbn [fst snd handlePromptChanged prompts nextCC set_prompts dispatchPromptsChanged
       availablePrompts].
  split; [apply Collection.get_set_same|].
  split; [intros k Hk; now apply Collection.get_set_other|].
  split.
  - intros Hhas. pose proof (MapFacts.keys_set_present _ _ updated Hhas) as Hkeys.
    split; [exact Hkeys|]. unfold JSMap.size.
    rewrite <- (length_map fst), Hkeys. apply length_map.
  - split; [apply MapFacts.set_absent | now repeat split].
Qed.

End Invariants.

(** X13.  In a collection that started empty no key occurs twice and each
    prompt is filed under its own [promptId]; so two prompts of the
    collection with the same [promptId] are one prompt, and [get] finds
    every prompt under its [promptId]. *)
Theorem built_collection_keyed_by_id (st : PromptDjMidi.State) :
  Built.built st ->
  Built.uniqueKeys (PromptDjMidi.prompts st)
  /\ Built.keyed (PromptDjMidi.prompts st)
  /\ (forall p, In p (JSMap.values (PromptDjMidi.prompts st)) ->
                JSMap.get (PromptDjMidi.prompts st) (promptId p) = Some p)
  /\ (forall p q,
        In p (JSMap.values (PromptDjMidi.prompts st)) ->
        In q (JSMap.values (PromptDjMidi.prompts st)) ->
        promptId p = promptId q -> p = q).
Proof.
  intros Hb. destruct (Invariants.built_invariants st Hb) as (Hu & Hk & _).
  assert (Hget : forall p, In p (JSMap.values (PromptDjMidi.prompts st)) ->
                           JSMap.get (PromptDjMidi.prompts st) (promptId p) = Some p).
  { intros p Hp. apply in_map_iff in Hp as [[k p'] [E Hin]]. simpl in E. subst p'.
    rewrite (Hk _ _ Hin). now apply MapFacts.In_get. }
  split; [exact Hu|]. split; [exact Hk|]. split; [exact Hget|].
  intros p q Hp Hq E. apply Hget in Hp, Hq. rewrite E in Hp. congruence.
Qed.

Lemma built_collection_keyed_by_id_witness :
  Built.uniqueKeys (PromptDjMidi.prompts Scenario.with_bass)
  /\ Built.keyed (PromptDjMidi.prompts Scenario.with_bass).
Proof.
  destruct (built_collection_keyed_by_id Scenario.with_bass) as (H1 & H2 & _).
  - apply Built.built_add. apply Built.built_empty.
  - split; assumption.
Defined.

(** X14.  In a collection that started empty no two prompts have the same
    controller number, and the number the next added prompt gets is one
    that no prompt of the collection has. *)
Theorem built_collection_distinct_cc (st : PromptDjMidi.State) :
  Built.built st ->
  Built.distinctCC (PromptDjMidi.prompts st)
  /\ (forall k p, JSMap.get (PromptDjMidi.prompts st) k = Some p ->
                  cc p <> PromptDjMidi.nextCC st).
Proof.
  intros Hb. destruct (Invariants.built_invariants st Hb) as (_ & _ & Hi & Hd & _).
  split; [exact Hd|]. intros k p H. apply Hi in H. lia.
Qed.

Lemma built_collection_distinct_cc_witness :
  Built.distinctCC
    (PromptDjMidi.prompts
       (fst (PromptDjMidi.handleAddPrompt Scenario.with_bass (Scenario.dom "Drums")))).
Proof.
  apply (built_collection_distinct_cc
           (fst (PromptDjMidi.handleAddPrompt Scenario.with_bass (Scenario.dom "Drums")))).
  apply Built.built_add. apply Built.built_add. apply Built.built_empty.
Defined.

(** X15.  In a collection that started empty the options offered are the
    prompts of the palette that are not in the collection, and adding a
    name that is offered, and is not empty, succeeds: the new prompt comes
    last, filed under the name, with weight 0, the counter's value as
    [cc], the colour of the first prompt of the palette with that text,
    and the middle of the soundscape as position; the name is no longer
    offered, and one [prompts-changed] with the new collection is
    dispatched. *)
Theorem offered_name_is_added (st : PromptDjMidi.State) (dom : PromptDjMidi.Dom) :
  Built.built st ->
  In (PromptDjMidi.promptSelect_value dom)
     (map PromptDjMidi.default_text (PromptDjMidi.availablePrompts st)) ->
  PromptDjMidi.promptSelect_value dom <> EmptyString ->
  let name := PromptDjMidi.promptSelect_value dom in
  let st' := fst (PromptDjMidi.handleAddPrompt st dom) in
  exists d added,
    find (fun p => String.eqb (PromptDjMidi.default_text p) name) (PromptDjMidi.allPrompts st)
    = Some d
    /\ PromptDjMidi.prompts st' = PromptDjMidi.prompts st ++ [(name, added)]
    /\ promptId added = name /\ text added = name
    /\ weight added = JS.ofZ 0
    /\ cc added = PromptDjMidi.nextCC st
    /\ color added = PromptDjMidi.default_color d
    /\ x added = Some (JS.div (PromptDjMidi.soundscape_offsetWidth dom) (JS.ofZ 2))
    /\ y added = Some (JS.div (PromptDjMidi.soundscape_offsetHeight dom) (JS.ofZ 2))
    /\ ~ In name (map PromptDjMidi.default_text (PromptDjMidi.availablePrompts st'))
    /\ snd (PromptDjMidi.handleAddPrompt st dom)
       = [PromptDjMidi.PromptsChanged (PromptDjMidi.prompts st')].
Proof.
  intros Hb Hoff Hne name st'. subst name st'.
  destruct (Invariants.built_invariants st Hb) as (_ & _ & _ & _ & Ho).
  rewrite Ho in Hoff. unfold PromptDjMidi.getAvailablePrompts in Hoff.
  apply in_map_iff in Hoff as [d0 [Hd0 Hin]]. apply filter_In in Hin as [Hin Hnot].
  rewrite Hd0 in Hnot. apply negb_true_iff in Hnot.
  destruct (Collection.find_palette (PromptDjMidi.allPrompts st)
              (PromptDjMidi.promptSelect_value dom)) as [d Hd].
  { rewrite <- Hd0. now apply in_map. }
  destruct (Invariants.handleAddPrompt_cases st dom)
    as [E|(d' & added & _ & _ & Hfind & Hadded & Hp & _ & _ & Hav & Hev)].
  { exfalso. unfold PromptDjMidi.handleAddPrompt in E.
    destruct (String.eqb_spec (PromptDjMidi.promptSelect_value dom) EmptyString);
      [contradiction|].
    rewrite Hnot, Hd in E. cbn [orb] in E.
    apply (f_equal snd) in E. discriminate. }
  rewrite Hd in Hfind. injection Hfind as <-.
  exists d, added. subst added. cbn [promptId text weight cc color x y].
  split; [exact Hd|]. split; [exact Hp|]. do 7 (split; [reflexivity|]).
  split; [|exact Hev].
  rewrite Hav. unfold PromptDjMidi.getAvailablePrompts.
  intros Hin'. apply in_map_iff in Hin' as [d1 [Hd1 Hin1]].
  apply filter_In in Hin1 as [_ Hn1]. rewrite Hd1, Hp in Hn1.
  apply negb_true_iff in Hn1. unfold JSMap.has in Hn1.
  rewrite <- MapFacts.set_absent in Hn1 by exact Hnot.
  now rewrite Collection.get_set_same in Hn1.
Qed.

Lemma offered_name_is_added_witness :
  exists d added,
    find (fun p => String.eqb (PromptDjMidi.default_text p) "Drums")
         (PromptDjMidi.allPrompts Scenario.with_bass)
    = Some d
    /\ PromptDjMidi.prompts
         (fst (PromptDjMidi.handleAddPrompt Scenario.with_bass (Scenario.dom "Drums")))
       = PromptDjMidi.prompts Scenario.with_bass ++ [("Drums"%string, added)]
    /\ cc added = 1.
Proof.
  destruct (offered_name_is_added Scenario.with_bass (Scenario.dom "Drums"))
    as (d & added & H1 & H2 & _ & _ & _ & H3 & _).
  - apply Built.built_add. apply Built.built_empty.
  - simpl. tauto.
  - discriminate.
  - exists d, added. split; [exact H1|]. split; [exact H2 | exact H3].
Defined.

(** X16.  Removing an identifier that is not a key leaves the collection as
    it is, and yet dispatches a [prompts-changed] with it.  Removing one
    that is a key, in a collection without repeated keys, makes the
    collection one prompt smaller: that key is gone and every other key
    has the prompt it had; the counter is untouched, and a name of the
    palette is offered again.  This is what the remove button of a
    controller comes to, for the [promptId] of its prompt. *)
Theorem remove_takes_one_prompt (st : PromptDjMidi.State) (id : string) :
  let st' := fst (PromptDjMidi.handlePromptRemoved st id) in
  snd (PromptDjMidi.handlePromptRemoved st id)
  = [PromptDjMidi.PromptsChanged (PromptDjMidi.prompts st')]
  /\ PromptDjMidi.nextCC st' = PromptDjMidi.nextCC st
  /\ (JSMap.get (PromptDjMidi.prompts st) id = None ->
      PromptDjMidi.prompts st' = PromptDjMidi.prompts st)
  /\ (forall removed,
        Built.uniqueKeys (PromptDjMidi.prompts st) ->
        JSMap.get (PromptDjMidi.prompts st) id = Some removed ->
        S (JSMap.size (PromptDjMidi.prompts st')) = JSMap.size (PromptDjMidi.prompts st)
        /\ JSMap.get (PromptDjMidi.prompts st') id = None
        /\ (forall k, k <> id ->
                      JSMap.get (PromptDjMidi.prompts st') k
                      = JSMap.get (PromptDjMidi.prompts st) k)
        /\ (In id (map PromptDjMidi.default_text (PromptDjMidi.allPrompts st)) ->
            In id (map PromptDjMidi.default_text (PromptDjMidi.availablePrompts st'))))
  /\ (forall c : PromptController.State,
        promptId (PromptController.prompt c) = id ->
        map (Built.onControllerEvent st) (PromptController.dispatchPromptRemoved c)
        = [PromptDjMidi.handlePromptRemoved st id]).
Proof.
  intros st'. subst st'.
  cbn [fst snd PromptDjMidi.handlePromptRemoved PromptDjMidi.prompts PromptDjMidi.nextCC
       PromptDjMidi.refresh_available PromptDjMidi.set_prompts
       PromptDjMidi.dispatchPromptsChanged PromptDjMidi.availablePrompts].
  split; [reflexivity|]. split; [reflexivity|].
  split; [apply MapFacts.delete_absent|].
  split.
  - intros removed Hu Hget.
    split; [now apply MapFacts.size_delete_present with removed|].
    split; [apply Collection.get_delete_same|].
    split; [intros k Hk; now apply MapFacts.get_delete_other|].
    intros Hin. unfold PromptDjMidi.getAvailablePrompts.
    cbn [PromptDjMidi.prompts PromptDjMidi.allPrompts].
    apply in_map_iff in Hin as [d [Hd Hin]]. apply in_map_iff. exists d.
    split; [exact Hd|]. apply filter_In. split; [exact Hin|]. cbv beta.
    rewrite Hd. unfold JSMap.has. cbn [PromptDjMidi.prompts PromptDjMidi.set_prompts].
    now rewrite Collection.get_delete_same.
  - intros c <-. reflexivity.
Qed.

Lemma remove_takes_one_prompt_witness :
  JSMap.size
    (PromptDjMidi.prompts (fst (PromptDjMidi.handlePromptRemoved Scenario.with_bass "Bass")))
  = 0%nat
  /\ PromptDjMidi.prompts (fst (PromptDjMidi.handlePromptRemoved Scenario.with_bass "Drums"))
     = PromptDjMidi.prompts Scenario.with_bass.
Proof.
  destruct (remove_takes_one_prompt Scenario.with_bass "Bass") as (_ & _ & _ & H & _).
  destruct (H Scenario.bass) as (Hsize & _).
  - repeat constructor. simpl. tauto.
  - reflexivity.
  - split.
    + simpl in Hsize. apply eq_add_S. exact Hsize.
    + apply (remove_takes_one_prompt Scenario.with_bass "Drums"). reflexivity.
Defined.

(** X17.  A [prompt-changed] replaces the prompt filed under the
    [promptId] of its detail and leaves the keys, their order and every
    other prompt as they were; for a [promptId] that is not a key it puts
    the prompt last.  Either way the counter and the options offered are
    untouched, and one [prompts-changed] with the new collection is
    dispatched. *)
Theorem change_replaces_one_prompt (st : PromptDjMidi.State) (updated : Prompt) :
  let st' := fst (PromptDjMidi.handlePromptChanged st updated) in
  JSMap.get (PromptDjMidi.prompts st') (promptId updated) = Some updated
  /\ (forall k, k <> promptId updated ->
                JSMap.get (PromptDjMidi.prompts st') k = JSMap.get (PromptDjMidi.prompts st) k)
  /\ (JSMap.has (PromptDjMidi.prompts st) (promptId updated) = true ->
      map fst (PromptDjMidi.prompts st') = map fst (PromptDjMidi.prompts st)
      /\ JSMap.size (PromptDjMidi.prompts st') = JSMap.size (PromptDjMidi.prompts st))
  /\ (JSMap.has (PromptDjMidi.prompts st) (promptId updated) = false ->
      PromptDjMidi.prompts st' = PromptDjMidi.prompts st ++ [(promptId updated, updated)])
  /\ PromptDjMidi.nextCC st' = PromptDjMidi.nextCC st
  /\ PromptDjMidi.availablePrompts st' = PromptDjMidi.availablePrompts st
  /\ snd (PromptDjMidi.handlePromptChanged st updated)
     = [PromptDjMidi.PromptsChanged (PromptDjMidi.prompts st')].
Proof.
  apply Invariants.changed_facts.
Qed.

Lemma change_replaces_one_prompt_witness :
  map fst
    (PromptDjMidi.prompts
       (fst (PromptDjMidi.handlePromptChanged Scenario.with_bass
               (with_weight Scenario.bass (JS.lit 8 10)))))
  = ["Bass"%string].
Proof.
  destruct (change_replaces_one_prompt Scenario.with_bass
              (with_weight Scenario.bass (JS.lit 8 10))) as (_ & _ & H & _).
  rewrite (proj1 (H eq_refl)). reflexivity.
Defined.

(** X18.  A drag of a controller that shows a prompt of the collection,
    taken in by the collection, moves that prompt and changes nothing
    else: the collection has the same keys in the same order, the prompt
    under the dragged prompt's [promptId] is the dragged prompt but for
    its position, every other key has the prompt it had, and the
    collection has dispatched one [prompts-changed]. *)
Theorem drag_moves_one_prompt_of_collection
    (c : PromptDjMidi.State) (st : PromptController.State)
    (down : PromptController.PointerEvent)
    (samples : list (PromptController.Layout * PromptController.PointerEvent)) :
  PromptController.hostPointerDown st = true ->
  PromptController.onControl down = false ->
  JSMap.get (PromptDjMidi.prompts c) (promptId (PromptController.prompt st))
  = Some (PromptController.prompt st) ->
  exists moved c',
    map (Built.onControllerEvent c)
        (snd (PromptController.run st
                (PromptController.PointerDown down
                   :: PromptController.pointerMoves samples ++ [PromptController.PointerUp])))
    = [(c', [PromptDjMidi.PromptsChanged (PromptDjMidi.prompts c')])]
    /\ Session.sameButPosition (PromptController.prompt st) moved
    /\ JSMap.get (PromptDjMidi.prompts c') (promptId (PromptController.prompt st))
       = Some moved
    /\ (forall k, k <> promptId (PromptController.prompt st) ->
                  JSMap.get (PromptDjMidi.prompts c') k = JSMap.get (PromptDjMidi.prompts c) k)
    /\ map fst (PromptDjMidi.prompts c') = map fst (PromptDjMidi.prompts c)
    /\ PromptDjMidi.nextCC c' = PromptDjMidi.nextCC c.
Proof.
  intros Hhost Hctl Hget.
  destruct (DragMore.session st down samples Hhost Hctl) as (final & E & _ & Hsame & _).
  exists (PromptController.prompt final),
         (fst (PromptDjMidi.handlePromptChanged c (PromptController.prompt final))).
  rewrite E. cbn [snd map Built.onControllerEvent].
  destruct (Invariants.changed_facts c (PromptController.prompt final))
    as (H1 & H2 & H3 & _ & H4 & _ & H5).
  assert (Hid : promptId (PromptController.prompt final)
                = promptId (PromptController.prompt st)) by apply Hsame.
  rewrite Hid in H1, H2, H3.
  split; [now rewrite <- H5|]. split; [exact Hsame|]. split; [exact H1|].
  split; [exact H2|]. split; [|exact H4].
  apply H3. unfold JSMap.has. now rewrite Hget.
Qed.

Lemma drag_moves_one_prompt_of_collection_witness :
  exists moved c',
    map (Built.onControllerEvent Scenario.with_bass)
        (snd (PromptController.run (Scenario.idle Scenario.bass)
                (PromptController.PointerDown (Scenario.pointer 500 500)
                   :: PromptController.pointerMoves
                        [(PromptController.pixelLayout 100 100 1000 1000,
                          Scenario.pointer 700 650)]
                   ++ [PromptController.PointerUp])))
    = [(c', [PromptDjMidi.PromptsChanged (PromptDjMidi.prompts c')])]
    /\ JSMap.get (PromptDjMidi.prompts c') "Bass" = Some moved
    /\ cc moved = 0.
Proof.
  destruct (drag_moves_one_prompt_of_collection Scenario.with_bass
              (Scenario.idle Scenario.bass) (Scenario.pointer 500 500)
              [(PromptController.pixelLayout 100 100 1000 1000, Scenario.pointer 700 650)]
              eq_refl eq_refl eq_refl)
    as (moved & c' & H1 & (_ & _ & _ & Hcc & _) & H2 & _).
  exists moved, c'. split; [exact H1|]. split; [exact H2 | exact Hcc].
Defined.

(** ** More on the background *)

Module BackgroundMore.

Import JS PromptDjMidi.

Lemma gradients_nth (random : nat -> number) (active : list Prompt) (n i : nat) (p : Prompt) :
  nth_error active i = Some p ->
  nth_error (gradients random n active) i
  = Some {| gradient_x := add (ofZ 20) (mul (random (n + 2 * i)%nat) (ofZ 60));
            gradient_y := add (ofZ 20) (mul (random (S (n + 2 * i))) (ofZ 60));
            gradient_color := color p;
            gradient_alpha := alpha p;
            gradient_stop := mul (div (weight p) (ofZ 2)) (ofZ 40) |}.
Proof.
  revert n i. induction active as [|q active IH]; intros n i; [now destruct i|].
  destruct i as [|i]; cbn [nth_error gradients].
  - intros [= ->]. now rewrite Nat.add_0_r.
  - intros H. rewrite (IH _ _ H).
    replace (S (S n) + 2 * i)%nat with (n + 2 * S i)%nat by lia. reflexivity.
Qed.

End BackgroundMore.

(** X19.  The background has, for the [i]-th prompt of weight above zero
    in the order of the collection, as [i]-th gradient the one with that
    prompt's colour and alpha, the stop [weight / 2 * 40], and the place
    [20 + r * 60] on each axis for the random draws [2 * i] and
    [2 * i + 1]: every gradient has two draws of its own. *)
Theorem background_gradient_of_each_active_prompt
    (random : nat -> JS.number) (m : JSMap.t Prompt) (i : nat) (p : Prompt) :
  nth_error (PromptDjMidi.activePrompts m) i = Some p ->
  nth_error (PromptDjMidi.makeBackground random m) i
  = Some {| PromptDjMidi.gradient_x :=
              JS.add (JS.ofZ 20) (JS.mul (random (2 * i)%nat) (JS.ofZ 60));
            PromptDjMidi.gradient_y :=
              JS.add (JS.ofZ 20) (JS.mul (random (S (2 * i))) (JS.ofZ 60));
            PromptDjMidi.gradient_color := color p;
            PromptDjMidi.gradient_alpha := PromptDjMidi.alpha p;
            PromptDjMidi.gradient_stop :=
              JS.mul (JS.div (weight p) (JS.ofZ 2)) (JS.ofZ 40) |}.
Proof.
  intros H. unfold PromptDjMidi.makeBackground.
  now rewrite (BackgroundMore.gradients_nth random _ 0 i p H).
Qed.

Lemma background_gradient_of_each_active_prompt_witness :
  nth_error
    (PromptDjMidi.makeBackground (fun n => JS.lit (Z.of_nat n) 10)
       [("Bass"%string, Scenario.bass);
        ("Drums"%string, with_weight Scenario.bass (JS.lit 8 10))]) 0
  = Some {| PromptDjMidi.gradient_x := JS.ofZ 20;
            PromptDjMidi.gradient_y := JS.ofZ 26;
            PromptDjMidi.gradient_color := "#9900ff";
            PromptDjMidi.gradient_alpha := "52";
            PromptDjMidi.gradient_stop := JS.ofZ 16 |}.
Proof.
  rewrite (background_gradient_of_each_active_prompt
             (fun n => JS.lit (Z.of_nat n) 10)
             [("Bass"%string, Scenario.bass);
              ("Drums"%string, with_weight Scenario.bass (JS.lit 8 10))]
             0 (with_weight Scenario.bass (JS.lit 8 10)) eq_refl).
  vm_compute. reflexivity.
Defined.

(** X20.  What the level of a prompt comes to in the background: a prompt
    set to level 0 has no gradient; set to a level from 1 to 5 it has one,
    in its own colour, whose alpha is [29] at level 1, [52] at level 2 and
    [66] from level 3 on. *)
Theorem level_decides_gradient
    (st : PromptController.State) (l : Z) (random : nat -> JS.number) (key : string) :
  0 <= l <= 5 ->
  let p := PromptController.prompt (fst (PromptController.updateLevel st (JS.ofZ l))) in
  (l = 0 -> PromptDjMidi.makeBackground random [(key, p)] = [])
  /\ (1 <= l ->
      exists g,
        PromptDjMidi.makeBackground random [(key, p)] = [g]
        /\ PromptDjMidi.gradient_color g = color (PromptController.prompt st)
        /\ PromptDjMidi.gradient_alpha g
           = if l =? 1 then "29"%string else if l =? 2 then "52"%string else "66"%string).
Proof.
  intros Hl p. subst p.
  cbn [fst PromptController.updateLevel PromptController.prompt
       PromptController.set_prompt].
  unfold PromptDjMidi.makeBackground, PromptDjMidi.activePrompts.
  cbn [JSMap.values map snd filter weight with_weight].
  assert (H : l = 0 \/ l = 1 \/ l = 2 \/ l = 3 \/ l = 4 \/ l = 5) by lia.
  split.
  - intros ->. reflexivity.
  - intros Hpos.
    assert (Hgt : JS.gt (JS.div (JS.ofZ l) (JS.lit 25 10)) (JS.ofZ 0) = true).
    { destruct H as [->|[->|[->|[->|[->| ->]]]]]; try lia; vm_compute; reflexivity. }
    rewrite Hgt. cbn [PromptDjMidi.gradients]. eexists. split; [reflexivity|].
    cbn [PromptDjMidi.gradient_color PromptDjMidi.gradient_alpha color with_weight].
    split; [reflexivity|].
    unfold PromptDjMidi.alpha. cbn [weight with_weight].
    destruct H as [->|[->|[->|[->|[->| ->]]]]]; try lia; vm_compute; reflexivity.
Qed.

Lemma level_decides_gradient_witness :
  PromptDjMidi.makeBackground (fun _ => JS.ofZ 0)
    [("Bass"%string,
      PromptController.prompt
        (fst (PromptController.updateLevel (Scenario.idle Scenario.bass) (JS.ofZ 0))))]
  = [].
Proof.
  apply (proj1 (level_decides_gradient (Scenario.idle Scenario.bass) 0
                  (fun _ => JS.ofZ 0) "Bass" ltac:(lia))).
  reflexivity.
Defined.

(** ** Filtered prompts *)

Module Filter.

Import View.

Lemma Set_has_app (s : list string) (a v : string) :
  Set_has (s ++ [a]) v = Set_has s v || String.eqb v a.
Proof.
  unfold Set_has. rewrite existsb_app. cbn [existsb]. now rewrite orb_false_r.
Qed.

Lemma Set_has_add (v : State) (name t : string) :
  Set_has (filteredPrompts (addFilteredPrompt v name)) t
  = Set_has (filteredPrompts v) t || String.eqb t name.
Proof.
  cbn [addFilteredPrompt filteredPrompts].
  destruct (Set_has (filteredPrompts v) name) eqn:E.
  - destruct (String.eqb_spec t name) as [->|]; [now rewrite E | now rewrite orb_false_r].
  - apply Set_has_app.
Qed.

End Filter.

(** X21.  Once a text is added to the filtered prompts, the controllers of
    the prompts with that text are rendered filtered, those filtered
    before stay so and no other becomes so; adding the text again changes
    nothing.  The selector of a filtered controller gets the grey
    [#888] and the audio level 0, whatever the prompt's colour and the
    live audio level, and the level of the prompt's weight all the
    same. *)
Theorem filtered_prompts_render_neutral (v : View.State) (name : string) :
  map View.props_prompt (View.renderPrompts (View.addFilteredPrompt v name))
  = JSMap.values (PromptDjMidi.prompts (View.collection v))
  /\ (forall props,
        In props (View.renderPrompts (View.addFilteredPrompt v name)) ->
        View.props_filtered props
        = View.Set_has (View.filteredPrompts v) (text (View.props_prompt props))
          || String.eqb (text (View.props_prompt props)) name)
  /\ View.addFilteredPrompt (View.addFilteredPrompt v name) name
     = View.addFilteredPrompt v name
  /\ (forall c props,
        View.props_filtered props = true ->
        PromptController.render (View.bind c props)
        = {| LevelSelector.level :=
               JS.Math_round (JS.mul (weight (View.props_prompt props)) (JS.lit 25 10));
             LevelSelector.color := "#888";
             LevelSelector.audioLevel := JS.ofZ 0 |}).
Proof.
  split; [|split; [|split]].
  - unfold View.renderPrompts. rewrite map_map. cbn [View.props_prompt].
    cbn [View.addFilteredPrompt View.collection]. apply map_id.
  - intros props Hin. unfold View.renderPrompts in Hin.
    apply in_map_iff in Hin as [p [<- _]]. cbn [View.props_filtered View.props_prompt].
    apply Filter.Set_has_add.
  - unfold View.addFilteredPrompt at 1. cbn [View.collection View.showMidi View.audioLevel].
    rewrite (Filter.Set_has_add v name name), String.eqb_refl, orb_true_r.
    reflexivity.
  - intros c props Hf. unfold PromptController.render, PromptController.level.
    cbn [View.bind PromptController.prompt PromptController.filtered
         PromptController.audioLevel].
    now rewrite Hf.
Qed.

Lemma filtered_prompts_render_neutral_witness :
  PromptController.render
    (View.bind (Scenario.idle Scenario.bass)
       {| View.props_prompt := with_weight Scenario.bass (JS.lit 12 10);
          View.props_filtered := true;
          View.props_showCC := false;
          View.props_audioLevel := JS.lit 9 10 |})
  = {| LevelSelector.level := JS.ofZ 3;
       LevelSelector.color := "#888";
       LevelSelector.audioLevel := JS.ofZ 0 |}.
Proof.
  rewrite (proj2 (proj2 (proj2 (filtered_prompts_render_neutral
                                  {| View.collection := Scenario.with_bass;
                                     View.filteredPrompts := [];
                                     View.showMidi := false;
                                     View.audioLevel := JS.lit 9 10 |} "Bass")))
             (Scenario.idle Scenario.bass)
             {| View.props_prompt := with_weight Scenario.bass (JS.lit 12 10);
                View.props_filtered := true;
                View.props_showCC := false;
                View.props_audioLevel := JS.lit 9 10 |} eq_refl).
  vm_compute. reflexivity.
Defined.

(** ** A drag cut short *)

Module CutShort.

Import PromptController.



End CutShort.


